(** * demo_indexing: rendering, link checking and region patching

    A shallow embedding of [scripts/demo_indexing.py]: the text nodes and
    records of the algorithm catalog, the two table formats ([Html] and
    [Rst]), the link extractor and validator, and the separator-delimited
    compare/overwrite of a region of a file.

    Conventions.  A Python [str] is a [string] (a sequence of 8-bit
    characters: the bytes of the text in UTF-8); Python exceptions are the
    constructors of [exn] and a call that may raise returns a [result];
    [None] is a constructor of its own in the dynamically typed [value]s and
    [option] elsewhere.  The script runs on a POSIX system: paths are joined
    with "/", and the line separator that a text-mode handle writes for a
    line feed is the line feed itself. *)

From Stdlib Require Import String Ascii List Bool Arith Lia.
Import ListNotations.

Local Open Scope list_scope.
Local Open Scope string_scope.

#[local] Set Warnings "-register-all".

(* ================================================================== *)
(** * Python runtime: exceptions *)

(** The argument of [error(message, edit_fixit)]: the two messages the
    region patcher builds, with the values interpolated in them. *)
Inductive message : Type :=
| SeparatorInstances (file_name : string) (found : nat) (separator : string)
    (* "expected exactly two instances of the separator ... found {len(parts) - 1} instances" *)
| Differs (label file_name : string).
    (* "existing {label} in `{file_name}` differs to generated {label}; ..." *)

Inductive exn : Type :=
| ValueError
| KeyError
| AttributeError
| IndexError
| UnboundLocalError
| AssertionError
| SystemExit (code : nat).

Inductive result (A : Type) : Type :=
| Ok (a : A)
| Raise (e : exn).
Arguments Ok {A} a.
Arguments Raise {A} e.

Definition bind {A B : Type} (r : result A) (k : A -> result B) : result B :=
  match r with
  | Ok a => k a
  | Raise e => Raise e
  end.

Declare Scope result_scope.
Delimit Scope result_scope with result.
Notation "x <- r ;; k" := (bind r (fun x => k))
  (at level 61, r at next level, right associativity) : result_scope.

(* ================================================================== *)
(** * Python runtime: [str] *)

(** [s[:n]] and [s[n:]]. *)
Fixpoint take (n : nat) (s : string) : string :=
  match n, s with
  | S n', String c s' => String c (take n' s')
  | _, _ => ""
  end.

Fixpoint drop (n : nat) (s : string) : string :=
  match n, s with
  | S n', String _ s' => drop n' s'
  | _, _ => s
  end.

(** [s.startswith(p)]. *)
Definition startswith (s p : string) : bool := prefix p s.

(** [s.lower()] on the ASCII letters.  The bytes of other characters are
    left alone: the two characters outside ASCII whose lowered form holds an
    ASCII letter give "i" and "k", which no test on lowered text here looks
    for. *)
Definition lower_ascii (c : ascii) : ascii :=
  let n := nat_of_ascii c in
  if ((65 <=? n) && (n <=? 90))%nat then ascii_of_nat (n + 32) else c.

Fixpoint lower (s : string) : string :=
  match s with
  | "" => ""
  | String c s' => String (lower_ascii c) (lower s')
  end.

(** [sep.join(parts)]. *)
Definition join (sep : string) (parts : list string) : string :=
  String.concat sep parts.

(** [" " * n]. *)
Fixpoint spaces (n : nat) : string :=
  match n with
  | 0 => ""
  | S n' => String " " (spaces n')
  end.

(** [s.partition(sep)] for a non-empty [sep]: the text before the leftmost
    occurrence of [sep] and the text after it, [None] when [sep] does not
    occur. *)
Fixpoint partition (sep s : string) : option (string * string) :=
  if prefix sep s then Some ("", drop (String.length sep) s)
  else match s with
       | "" => None
       | String c s' =>
           match partition sep s' with
           | Some (before, after) => Some (String c before, after)
           | None => None
           end
       end.

(** [s.split(sep)]: cut at the leftmost occurrence and go on after it.  Every
    cut removes at least one character, so [length s] rounds are enough
    ([split_parts_unfold] below). *)
Fixpoint split_parts (fuel : nat) (sep s : string) : list string :=
  match partition sep s with
  | None => [s]
  | Some (before, after) =>
      match fuel with
      | 0 => [s]
      | S fuel' => before :: split_parts fuel' sep after
      end
  end.

Definition split (s sep : string) : result (list string) :=
  if sep =? "" then Raise ValueError (* "empty separator" *)
  else Ok (split_parts (String.length s) sep s).

(** [s.count(sep)] for a non-empty [sep]: the scanner of non-overlapping
    occurrences, left to right; [skip] characters of the occurrence just
    counted are still to be passed over. *)
Fixpoint count_scan (sep : string) (skip : nat) (s : string) : nat :=
  match s with
  | "" => 0
  | String _ s' =>
      match skip with
      | S k => count_scan sep k s'
      | 0 => if prefix sep s then S (count_scan sep (String.length sep - 1) s')
             else count_scan sep 0 s'
      end
  end.

Definition count (s sep : string) : nat :=
  if sep =? "" then S (String.length s) else count_scan sep 0 s.

(* ================================================================== *)
(** * Files opened with mode "r+" *)

(** The carriage return. *)
Definition CR : ascii := "013".

(** The character occurs in the string. *)
Fixpoint mentions (c : ascii) (s : string) : bool :=
  match s with
  | "" => false
  | String d s' => Ascii.eqb c d || mentions c s'
  end.

(** What a handle opened in text mode (with the default [newline=None])
    gives for the bytes it reads: a carriage return followed by a line feed,
    and a carriage return on its own, are read as a line feed. *)
Fixpoint universal_newlines (s : string) : string :=
  match s with
  | "" => ""
  | String c s' =>
      if Ascii.eqb c CR then
        match s' with
        | String "010" _ => universal_newlines s'
        | _ => String "010" (universal_newlines s')
        end
      else String c (universal_newlines s')
  end.

(** The bytes on disk and the position of the handle. *)
Record file : Type := mkfile { contents : string; position : nat }.

Definition open (on_disk : string) : file := mkfile on_disk 0.

(** [f.read()]: the text of the bytes from the position on. *)
Definition read (f : file) : string * file :=
  (universal_newlines (drop (position f) (contents f)),
   mkfile (contents f) (String.length (contents f))).

Definition seek (pos : nat) (f : file) : file := mkfile (contents f) pos.

(** [f.write(data)]: the text is written as it is (a line feed is written
    as the line separator, which is the line feed).  Writing at a position
    past the end pads the gap with NUL bytes. *)
Fixpoint nuls (n : nat) : string :=
  match n with
  | 0 => ""
  | S n' => String zero (nuls n')
  end.

Definition write (data : string) (f : file) : file :=
  let pos := position f in
  mkfile (take pos (contents f) ++ nuls (pos - String.length (contents f))
            ++ data ++ drop (pos + String.length data) (contents f))
         (pos + String.length data).

Definition truncate (f : file) : file :=
  let pos := position f in
  mkfile (take pos (contents f) ++ nuls (pos - String.length (contents f))) pos.

(* ================================================================== *)
(** * The region patcher *)

(** What a call leaves behind: the bytes of the file, what went to standard
    output (the unified diff of the two regions, kept as its two inputs),
    the messages given to [error], and how the call ended. *)
Inductive printed : Type :=
| UnifiedDiff (current_middle new_middle fromfile : string).

Record outcome : Type := mkoutcome {
  on_disk : string;
  stdout : list printed;
  stderr : list (message * bool);
  ended : result unit
}.

(** [error(message, edit_fixit)]: print and [sys.exit(1)]. *)
Definition error (on_disk : string) (out : list printed)
    (msg : message) (edit_fixit : bool) : outcome :=
  mkoutcome on_disk out [(msg, edit_fixit)] (Raise (SystemExit 1)).

(** [disk] is what the file named [file_name] holds when it is opened (the
    file exists: [open] raises otherwise and nothing is done).  The handle
    is a text-mode one: what is split is the text of these bytes, and what
    is written replaces the bytes. *)
Definition separate_compare_overwrite
    (file_name separator action new_middle label : string)
    (disk : string) : outcome :=
  let f := open disk in
  let (file_contents, f) := read f in
  match split file_contents separator with
  | Raise e => mkoutcome (contents f) [] [] (Raise e)
  | Ok parts =>
      if negb (List.length parts =? 3)%nat then
        error (contents f) []
          (SeparatorInstances file_name (List.length parts - 1) separator) false
      else
        match parts with
        | [prefix; current_middle; suffix] =>
            if (action =? "compare") && negb (new_middle =? current_middle) then
              error (contents f)
                [UnifiedDiff current_middle new_middle file_name]
                (Differs label file_name) true
            else if action =? "overwrite" then
              let f := seek 0 f in
              let f := write (join "" [prefix; separator; new_middle; separator; suffix]) f in
              (* delete any remaining content *)
              let f := truncate f in
              mkoutcome (contents f) [] [] (Ok tt)
            else mkoutcome (contents f) [] [] (Ok tt)
        | _ => mkoutcome (contents f) [] [] (Raise ValueError)
        end
  end.

(* ================================================================== *)
(** * Text nodes *)

Definition LINK_DEFAULT_TEXT : string := "demo".
Definition TRUE_TEXT : string := "yes".

Inductive LinkKind : Type := index | notebook.

(** What may be passed as [kind]: a member of the enumeration, or any other
    object. *)
Inductive kind_value : Type :=
| Member (k : LinkKind)
| NotMember.

Record T : Type := mkT {
  text : string;
  link : option string;
  details : option string;
  kind : kind_value
}.

(** [isinstance(kind, LinkKind)]. *)
Definition isinstance_LinkKind (k : kind_value) : bool :=
  match k with
  | Member _ => true
  | NotMember => false
  end.

(** [T.__init__(text=None, link=None, details=None, kind=LinkKind.notebook)],
    with the [assert] statement executed. *)
Definition T_init (text link details : option string) (kind : kind_value)
  : result T :=
  (text <- match text with
           | None =>
               match link with
               | None => Raise ValueError
               | Some _ => Ok LINK_DEFAULT_TEXT
               end
           | Some text => Ok text
           end ;;
   let self := mkT text link details kind in
   if isinstance_LinkKind kind then Ok self else Raise AssertionError)%result.

(** The values a cell is declared with, and the values [T.textify] makes of
    them. *)
Inductive value : Type :=
| VNone
| VBool (b : bool)
| VStr (s : string)
| VList (l : list value)
| VT (t : T).

(** Truth value of an object ([not inp] is its negation). *)
Definition value_truth (inp : value) : bool :=
  match inp with
  | VNone => false
  | VBool b => b
  | VStr s => negb (s =? "")
  | VList l => negb (Nat.eqb (List.length l) 0)
  | VT _ => true
  end.

Fixpoint T_textify (inp : value) : result value :=
  if negb (value_truth inp) then Ok VNone
  else
    match inp with
    | VBool true =>
        (t <- T_init (Some TRUE_TEXT) None None (Member notebook) ;; Ok (VT t))%result
    | VList l =>
        (l' <- (fix comprehension (l : list value) : result (list value) :=
                  match l with
                  | [] => Ok []
                  | x :: l => (y <- T_textify x ;;
                               l' <- comprehension l ;;
                               Ok (y :: l'))%result
                  end) l ;;
         Ok (VList l'))%result
    | VT _ => Ok inp
    | VStr s =>
        (t <- T_init (Some s) None None (Member notebook) ;; Ok (VT t))%result
    | VNone | VBool false => Ok VNone
    end.

(** The list comprehension of [T.textify], by its name. *)
Definition textify_each (l : list value) : result (list value) :=
  (fix comprehension (l : list value) : result (list value) :=
     match l with
     | [] => Ok []
     | x :: l => (y <- T_textify x ;;
                  l' <- comprehension l ;;
                  Ok (y :: l'))%result
     end) l.

(* ================================================================== *)
(** * Columns and records *)

Definition index_link (text link details : option string) : result T :=
  T_init text link details (Member index).

(** The module-level heading objects.  [T] defines neither [__eq__] nor
    [__hash__]: as dictionary keys the headings are compared by identity, and
    a heading is either one of these eleven objects or some other [T]. *)
Inductive column : Type :=
| ALGORITHM | HETEROGENEOUS | DIRECTED | WEIGHTED | TEMPORAL | FEATURES
| NC | LP | RL | INDUCTIVE | GC.

Definition column_eqb (a b : column) : bool :=
  match a, b with
  | ALGORITHM, ALGORITHM | HETEROGENEOUS, HETEROGENEOUS
  | DIRECTED, DIRECTED | WEIGHTED, WEIGHTED | TEMPORAL, TEMPORAL
  | FEATURES, FEATURES | NC, NC | LP, LP | RL, RL
  | INDUCTIVE, INDUCTIVE | GC, GC => true
  | _, _ => false
  end.

Definition column_T (c : column) : T :=
  match c with
  | ALGORITHM => mkT "Algorithm" None None (Member notebook)
  | HETEROGENEOUS => mkT "Heter." None (Some "Heterogeneous") (Member notebook)
  | DIRECTED => mkT "Dir." None (Some "Directed") (Member notebook)
  | WEIGHTED => mkT "EW" None (Some "Edge weights") (Member notebook)
  | TEMPORAL => mkT "T" None (Some "Time-varying, temporal") (Member notebook)
  | FEATURES => mkT "NF" None (Some "Node features") (Member notebook)
  | NC => mkT "NC" (Some "node-classification") (Some "Node classification") (Member index)
  | LP => mkT "LP" (Some "link-prediction") (Some "Link prediction") (Member index)
  | RL => mkT "Unsup." (Some "embeddings") (Some "Unsupervised") (Member index)
  | INDUCTIVE => mkT "Ind." None (Some "Inductive") (Member notebook)
  | GC => mkT "GC" (Some "graph-classification") (Some "Graph classification") (Member index)
  end.

Definition COLUMNS : list column :=
  [ALGORITHM; HETEROGENEOUS; DIRECTED; WEIGHTED; TEMPORAL; FEATURES;
   NC; LP; RL; INDUCTIVE; GC].

Inductive heading : Type :=
| Declared (c : column)
| Undeclared (t : T).

Definition heading_T (h : heading) : T :=
  match h with
  | Declared c => column_T c
  | Undeclared t => t
  end.

(** The objects the traversals meet: the values above, records, and lists
    of any of them. *)
Inductive element : Type :=
| ENone
| EBool (b : bool)
| EStr (s : string)
| EList (l : list element)
| ET (t : T)
| EAlgorithm (columns : list (column * element)).

Fixpoint of_value (v : value) : element :=
  match v with
  | VNone => ENone
  | VBool b => EBool b
  | VStr s => EStr s
  | VList l => EList (map of_value l)
  | VT t => ET t
  end.

Definition element_truth (e : element) : bool :=
  match e with
  | ENone => false
  | EBool b => b
  | EStr s => negb (s =? "")
  | EList l => negb (Nat.eqb (List.length l) 0)
  | ET _ | EAlgorithm _ => true
  end.

(** An [Algorithm] object: its [columns] dictionary, in insertion order. *)
Record Algorithm : Type := mkAlgorithm { columns : list (column * element) }.

(** [{name: T.textify(value) for name, value in columns.items()}]. *)
Fixpoint textify_items (items : list (column * value))
  : result (list (column * element)) :=
  match items with
  | [] => Ok []
  | (name, v) :: items =>
      (cell <- T_textify v ;;
       rest <- textify_items items ;;
       Ok ((name, of_value cell) :: rest))%result
  end.

Definition Algorithm_init
    (algorithm heterogeneous directed weighted temporal features nc
       interpretability_nc lp rl inductive gc : value) : result Algorithm :=
  let columns :=
    [(ALGORITHM, algorithm); (HETEROGENEOUS, heterogeneous);
     (DIRECTED, directed); (WEIGHTED, weighted); (TEMPORAL, temporal);
     (FEATURES, features); (NC, nc); (LP, lp); (RL, rl);
     (INDUCTIVE, inductive); (GC, gc)] in
  (columns <- textify_items columns ;; Ok (mkAlgorithm columns))%result.

(** [d[key]] on a dictionary in insertion order. *)
Fixpoint dict_get (d : list (column * element)) (key : column) : result element :=
  match d with
  | [] => Raise KeyError
  | (k, v) :: d => if column_eqb k key then Ok v else dict_get d key
  end.

(** [algorithm.columns[heading]]. *)
Definition getitem (algorithm : Algorithm) (h : heading) : result element :=
  match h with
  | Declared c => dict_get (columns algorithm) c
  | Undeclared _ => Raise KeyError
  end.

(* ================================================================== *)
(** * Formats: link suffixes *)

Class Format (F : Type) : Type := {
  file_name : F -> string;
  separator : F -> string;
  index_suffix : F -> bool -> string;
  notebook_suffix : F -> bool -> string
}.

(** [Format.link(self, t, checking=False)].  When [t.kind] is neither member
    of [LinkKind] no branch assigns [suffix]. *)
Definition Format_link {F : Type} `{Format F} (self : F) (t : T) (checking : bool)
  : result (option string) :=
  match link t with
  | None => Ok None
  | Some t_link =>
      (suffix <- match kind t with
                 | Member index => Ok (index_suffix self checking)
                 | Member notebook => Ok (notebook_suffix self checking)
                 | NotMember => Raise UnboundLocalError
                 end ;;
       Ok (Some (t_link ++ suffix)))%result
  end.

Record Html : Type := mkHtml { Html_file_name : string; Html_separator : string }.
Record Rst : Type := mkRst { Rst_file_name : string; Rst_separator : string }.

Definition Html_index_suffix (self : Html) (checking : bool) : string := "/README.md".
Definition Html_notebook_suffix (self : Html) (checking : bool) : string := ".ipynb".

Definition Rst_index_suffix (self : Rst) (checking : bool) : string :=
  if checking then "/index.rst" else "/index".
Definition Rst_notebook_suffix (self : Rst) (checking : bool) : string :=
  if checking then ".nblink" else "".

#[export] Instance Html_Format : Format Html := {
  file_name := Html_file_name;
  separator := Html_separator;
  index_suffix := Html_index_suffix;
  notebook_suffix := Html_notebook_suffix
}.

#[export] Instance Rst_Format : Format Rst := {
  file_name := Rst_file_name;
  separator := Rst_separator;
  index_suffix := Rst_index_suffix;
  notebook_suffix := Rst_notebook_suffix
}.

(* ================================================================== *)
(** * HtmlBuilder *)

Record HtmlBuilder : Type := mkHtmlBuilder {
  html : list string;
  indent_amount : option nat;
  indent_level : nat;
  add_count : nat
}.

(** [HtmlBuilder(indent)]. *)
Definition HtmlBuilder_init (indent : option nat) : HtmlBuilder :=
  mkHtmlBuilder [] indent 0 0.

(** A method of the builder: it changes the builder or raises. *)
Definition method : Type := HtmlBuilder -> result HtmlBuilder.

Definition and_then (m k : method) : method :=
  fun self => bind (m self) k.

Declare Scope method_scope.
Delimit Scope method_scope with method.
Notation "m ;;; k" := (and_then m k)
  (at level 62, right associativity) : method_scope.

Definition pass : method := fun self => Ok self.

(** [for x in xs: body(x)]. *)
Fixpoint for_each {X : Type} (xs : list X) (body : X -> method) : method :=
  match xs with
  | [] => pass
  | x :: xs => (body x ;;; for_each xs body)%method
  end.

(** [l[-1] += data]. *)
Fixpoint add_to_last (l : list string) (data : string) : result (list string) :=
  match l with
  | [] => Raise IndexError
  | [x] => Ok [x ++ data]
  | x :: l => (l' <- add_to_last l data ;; Ok (x :: l'))%result
  end.

(** The truth value of [self.indent_amount]. *)
Definition indent_truth (indent : option nat) : bool :=
  match indent with
  | None | Some 0 => false
  | Some _ => true
  end.

Definition HtmlBuilder_add (data : string) (one_line : bool) : method :=
  fun self =>
    let add_count := S (add_count self) in
    if one_line then
      (html' <- add_to_last (html self) data ;;
       Ok (mkHtmlBuilder html' (indent_amount self) (indent_level self) add_count))%result
    else
      let data :=
        if indent_truth (indent_amount self) then
          let indent :=
            spaces (match indent_amount self with Some n => n | None => 0 end
                    * indent_level self) in
          indent ++ data
        else data in
      Ok (mkHtmlBuilder (html self ++ [data])%list (indent_amount self)
            (indent_level self) add_count).

Definition set_indent_level (f : nat -> nat) : method :=
  fun self =>
    Ok (mkHtmlBuilder (html self) (indent_amount self) (f (indent_level self))
          (add_count self)).

(** [with self.element(name, attrs, only_with_attrs): body]. *)
Definition HtmlBuilder_element (name : string) (attrs : list (string * string))
    (only_with_attrs : bool) (body : method) : method :=
  if only_with_attrs && Nat.eqb (List.length attrs) 0 then body
  else
    let attrs_str :=
      join " " (map (fun '(name, value) => name ++ "='" ++ value ++ "'") attrs) in
    let attrs_str := if attrs_str =? "" then attrs_str else " " ++ attrs_str in
    (HtmlBuilder_add ("<" ++ name ++ attrs_str ++ ">") false ;;;
     set_indent_level S ;;;
     fun self =>
       let initial_len := List.length (html self) in
       (body ;;;
        set_indent_level pred ;;;
        fun self =>
          HtmlBuilder_add ("</" ++ name ++ ">")
            (Nat.eqb (List.length (html self)) initial_len) self) self)%method.

Definition HtmlBuilder_string (self : HtmlBuilder) : string :=
  let sep := match indent_amount self with None => "" | Some _ => String "010" "" end in
  join sep (html self).

(* ================================================================== *)
(** * The hypertext format *)

(** The truth value of an optional string. *)
Definition str_truth (s : option string) : bool :=
  match s with
  | None => false
  | Some s => negb (s =? "")
  end.

Definition attr (name : string) (value : option string) : list (string * string) :=
  match value with
  | Some v => if str_truth value then [(name, v)] else []
  | None => []
  end.

Definition Html__render_t (self : Html) (t : T) : result string :=
  let html := HtmlBuilder_init None in
  let title_attr := attr "title" (details t) in
  (link <- Format_link self t false ;;
   let href_attr := attr "href" link in
   html <- HtmlBuilder_element "span" title_attr true
             (HtmlBuilder_element "a" href_attr true
                (HtmlBuilder_add (text t) false)) html ;;
   Ok (HtmlBuilder_string html))%result.

Fixpoint Html__render_cell (self : Html) (cell : element) (one_line : bool)
  : method :=
  if negb (element_truth cell) then pass
  else
    match cell with
    | EList l =>
        (fix loop (l : list element) : method :=
           match l with
           | [] => pass
           | contents :: l =>
               (Html__render_cell self contents false ;;; loop l)%method
           end) l
    | ET t =>
        fun html => (s <- Html__render_t self t ;; HtmlBuilder_add s one_line html)%result
    | _ => fun _ => Raise AttributeError
    end.

Section Script.

(** The path the script was started with. *)
Variable __file__ : string.

Definition AUTOGENERATED_PROMPT : string :=
  "autogenerated by " ++ __file__ ++ ", edit that file instead of this location".

Definition Html_render (self : Html) (headings : list heading)
    (algorithms : list Algorithm) : result string :=
  let builder := HtmlBuilder_init (Some 2) in
  (builder <-
     (HtmlBuilder_add ("<!-- " ++ AUTOGENERATED_PROMPT ++ " -->") false ;;;
      HtmlBuilder_element "table" [] false
        (HtmlBuilder_element "tr" [] false
           (for_each headings (fun heading =>
              HtmlBuilder_element "th" [] false
                (fun builder =>
                   (s <- Html__render_t self (heading_T heading) ;;
                    HtmlBuilder_add s true builder)%result))) ;;;
         for_each algorithms (fun algorithm =>
           HtmlBuilder_element "tr" [] false
             (for_each headings (fun heading =>
                HtmlBuilder_element "td" [] false
                  (fun builder =>
                     (cell <- getitem algorithm heading ;;
                      Html__render_cell self cell true builder)%result))))))%method
       builder ;;
   Ok (HtmlBuilder_string builder))%result.

End Script.

(* ================================================================== *)
(** * The structured-text format *)

Definition Rst__render_t (self : Rst) (t : T) : result string :=
  (link <- Format_link self t false ;;
   let text := if str_truth (details t)
               then match details t with Some d => d | None => text t end
               else text t in
   if str_truth link
   then Ok (":any:`" ++ text ++ " <"
              ++ match link with Some l => l | None => "" end ++ ">`")
   else Ok text)%result.

Fixpoint Rst__render_cell (self : Rst) (cell : element) : result string :=
  if negb (element_truth cell) then Ok ""
  else
    match cell with
    | EList l =>
        (parts <- (fix each (l : list element) : result (list string) :=
                     match l with
                     | [] => Ok []
                     | contents :: l =>
                         (s <- Rst__render_cell self contents ;;
                          rest <- each l ;;
                          Ok (s :: rest))%result
                     end) l ;;
         Ok (join ", " parts))%result
    | ET t => Rst__render_t self t
    | _ => Raise AttributeError
    end.

Definition new_row : string := "   *".
Definition new_item : string := "     -".

(** One pass of a [for] loop that appends to the list [result]. *)
Fixpoint appending {X : Type} (xs : list X)
    (body : X -> list string -> result (list string))
    (lines : list string) : result (list string) :=
  match xs with
  | [] => Ok lines
  | x :: xs => (lines <- body x lines ;; appending xs body lines)%result
  end.

Definition Rst_render (self : Rst) (headings : list heading)
    (algorithms : list Algorithm) : result string :=
  let lines := [".. list-table::"; "   :header-rows: 1"; ""] in
  let lines := (lines ++ [new_row])%list in
  (lines <- appending headings (fun heading lines =>
              (rst <- Rst__render_t self (heading_T heading) ;;
               Ok (lines ++ [(new_item ++ " " ++ rst)%string])%list)%result) lines ;;
   lines <- appending algorithms (fun algorithm lines =>
              let lines := (lines ++ [new_row])%list in
              appending headings (fun heading lines =>
                (cell <- getitem algorithm heading ;;
                 rst <- Rst__render_cell self cell ;;
                 if negb (rst =? "")
                 then Ok (lines ++ [(new_item ++ " " ++ rst)%string])%list
                 else Ok (lines ++ [new_item])%list)%result) lines) lines ;;
   Ok (join (String "010" "") lines))%result.

(* ================================================================== *)
(** * The link extractor *)

(** A generator that has run to its end: what it yielded, and whether it
    stopped by returning or by raising. *)
Definition generator (Y : Type) : Type := (list Y * result unit)%type.

Definition yield_nothing {Y : Type} : generator Y := ([], Ok tt).
Definition yield {Y : Type} (y : Y) : generator Y := ([y], Ok tt).
Definition raise {Y : Type} (e : exn) : generator Y := ([], Raise e).

(** [yield from g] and then go on with [k]. *)
Definition yield_from {Y : Type} (g k : generator Y) : generator Y :=
  match snd g with
  | Ok _ => (fst g ++ fst k, snd k)%list
  | Raise e => g
  end.

Fixpoint find_links {F : Type} `{Format F} (elt : element) (fmt : F)
  : generator (option string * option string) :=
  match elt with
  | ENone => yield_nothing
  | ET t =>
      match Format_link fmt t true with
      | Raise e => raise e
      | Ok rendered_link =>
          if str_truth rendered_link
          then yield (link t, rendered_link)
          else yield_nothing
      end
  | EList l =>
      (fix loop (l : list element) : generator (option string * option string) :=
         match l with
         | [] => yield_nothing
         | sub :: l => yield_from (find_links sub fmt) (loop l)
         end) l
  | EAlgorithm columns =>
      (* for sub in element.columns.values() *)
      (fix loop (items : list (column * element))
         : generator (option string * option string) :=
         match items with
         | [] => yield_nothing
         | (_, sub) :: items => yield_from (find_links sub fmt) (loop items)
         end) columns
  | EBool _ | EStr _ => raise ValueError
  end.

(* ================================================================== *)
(** * The link validator *)

(** [os.path.isabs] and [os.path.join] of [posixpath]. *)
Definition isabs (s : string) : bool := startswith s "/".

Fixpoint endswith_slash (s : string) : bool :=
  match s with
  | "" => false
  | String c "" => Ascii.eqb c "/"
  | String _ s' => endswith_slash s'
  end.

Definition path_join (a b : string) : string :=
  if startswith b "/" then b
  else if (a =? "") || endswith_slash a then a ++ b
  else a ++ "/" ++ b.

Section Filesystem.

(** [os.path.exists] on the file system the script runs in. *)
Variable exists_ : string -> bool.

Definition link_is_valid_relative (link : option string) (base_dir : string)
  : bool :=
  match link with
  | None => true
  | Some link =>
      if isabs link then
        (* absolute links aren't allowed *)
        false
      else if startswith (lower link) "http" then
        (* github (and other website) links aren't allowed either *)
        false
      else exists_ (path_join base_dir link)
  end.

End Filesystem.

(* ================================================================== *)
(** * The files the tables are written to *)

Definition LF : string := String "010" "".

Definition FILES_rst : Rst :=
  (* a RST comment is a directive with an unknown type, like an empty string *)
  mkRst "docs/demos/index.rst" (LF ++ ".." ++ LF ++ "   DEMO TABLE MARKER" ++ LF).

Definition FILES_html : Html :=
  mkHtml "demos/README.md" (LF ++ "<!-- DEMO TABLE MARKER -->" ++ LF).

(* ================================================================== *)
(** * The catalog *)

(** A call [Algorithm(algorithm, keyword=value, ...)]: the arguments are
    evaluated in the order they are written, and a keyword that is not given
    has the default [None]. *)
Inductive keyword : Type :=
| kw_heterogeneous | kw_directed | kw_weighted | kw_temporal | kw_features
| kw_nc | kw_interpretability_nc | kw_lp | kw_rl | kw_inductive | kw_gc.

Definition keyword_eqb (a b : keyword) : bool :=
  match a, b with
  | kw_heterogeneous, kw_heterogeneous | kw_directed, kw_directed
  | kw_weighted, kw_weighted | kw_temporal, kw_temporal
  | kw_features, kw_features | kw_nc, kw_nc
  | kw_interpretability_nc, kw_interpretability_nc | kw_lp, kw_lp
  | kw_rl, kw_rl | kw_inductive, kw_inductive | kw_gc, kw_gc => true
  | _, _ => false
  end.

Fixpoint evaluate (kwargs : list (keyword * result value))
  : result (list (keyword * value)) :=
  match kwargs with
  | [] => Ok []
  | (k, r) :: kwargs =>
      (v <- r ;; rest <- evaluate kwargs ;; Ok ((k, v) :: rest))%result
  end.

Fixpoint keyword_value (kwargs : list (keyword * value)) (k : keyword) : value :=
  match kwargs with
  | [] => VNone
  | (k', v) :: kwargs => if keyword_eqb k' k then v else keyword_value kwargs k
  end.

Definition Algorithm_call (algorithm : result value)
    (kwargs : list (keyword * result value)) : result Algorithm :=
  (algorithm <- algorithm ;;
   kwargs <- evaluate kwargs ;;
   let kw := keyword_value kwargs in
   Algorithm_init algorithm (kw kw_heterogeneous) (kw kw_directed)
     (kw kw_weighted) (kw kw_temporal) (kw kw_features) (kw kw_nc)
     (kw kw_interpretability_nc) (kw kw_lp) (kw kw_rl) (kw kw_inductive)
     (kw kw_gc))%result.

(** [T(text, link=..., details=...)] as an argument. *)
Definition T_call (text link details : option string) : result value :=
  (t <- T_init text link details (Member notebook) ;; Ok (VT t))%result.

(** A list display of arguments. *)
Fixpoint list_of (items : list (result value)) : result (list value) :=
  match items with
  | [] => Ok []
  | r :: items => (v <- r ;; rest <- list_of items ;; Ok (v :: rest))%result
  end.

Definition list_call (items : list (result value)) : result value :=
  (l <- list_of items ;; Ok (VList l))%result.

Definition str (s : string) : result value := Ok (VStr s).
Definition True_ : result value := Ok (VBool true).

Definition HETEROGENEOUS_EDGE : result value :=
  T_call (Some "yes, edges") None (Some "multiple edges types").

Definition rl_us (link : option string) : result value :=
  T_call (Some "US") link (Some "UnsupervisedSampler").

(** The default of [rl_dgi]'s [link]. *)
Definition rl_dgi_default : option string :=
  Some "embeddings/deep-graph-infomax-embeddings".

Definition rl_dgi (link : option string) : result value :=
  T_call (Some "DGI") link (Some "DeepGraphInfomax").

Definition via_rl (link : option string) : result value :=
  T_call (Some "via unsup.") link (Some "via embedding vectors").

(** [T(link=...)]. *)
Definition demo (link : string) : result value := T_call None (Some link) None.

(** [T(text, details=...)]. *)
Definition named (text details : string) : result value :=
  T_call (Some text) None (Some details).

Definition ALGORITHM_calls : list (result Algorithm) :=
  [ Algorithm_call (named "GCN" "Graph Convolutional Network (GCN)")
      [(kw_heterogeneous, str "see RGCN");
       (kw_features, True_);
       (kw_temporal, str "see T-GCN");
       (kw_nc, demo "node-classification/gcn-node-classification");
       (kw_interpretability_nc, demo "interpretability/gcn-node-link-importance");
       (kw_lp, demo "link-prediction/gcn-link-prediction");
       (kw_rl, list_call [rl_us None; rl_dgi rl_dgi_default]);
       (kw_inductive, str "see Cluster-GCN");
       (kw_gc, demo "graph-classification/gcn-supervised-graph-classification")];
    Algorithm_call (str "Cluster-GCN")
      [(kw_features, True_);
       (kw_nc, demo "node-classification/cluster-gcn-node-classification");
       (kw_lp, True_);
       (kw_inductive, True_)];
    Algorithm_call (named "RGCN" "Relational GCN (RGCN)")
      [(kw_heterogeneous, HETEROGENEOUS_EDGE);
       (kw_features, True_);
       (kw_nc, demo "node-classification/rgcn-node-classification");
       (kw_lp, True_)];
    Algorithm_call (named "T-GCN" "Temporal GCN (T-GCN), implemented as GCN-LSTM")
      [(kw_features, str "time series, sequence");
       (kw_temporal, str "node features");
       (kw_nc, demo "time-series/gcn-lstm-time-series")];
    Algorithm_call (named "GAT" "Graph ATtention Network (GAT)")
      [(kw_features, True_);
       (kw_nc, demo "node-classification/gat-node-classification");
       (kw_interpretability_nc, demo "interpretability/gat-node-link-importance");
       (kw_lp, True_);
       (kw_rl, list_call [rl_us None; rl_dgi rl_dgi_default])];
    Algorithm_call (named "SGC" "Simplified Graph Convolution (SGC)")
      [(kw_features, True_);
       (kw_nc, demo "node-classification/sgc-node-classification");
       (kw_lp, True_)];
    Algorithm_call
      (named "PPNP" "Personalized Propagation of Neural Predictions (PPNP)")
      [(kw_features, True_);
       (kw_nc, demo "node-classification/ppnp-node-classification");
       (kw_lp, True_);
       (kw_rl, list_call [rl_us None; rl_dgi None])];
    Algorithm_call (named "APPNP" "Approximate PPNP (APPNP)")
      [(kw_features, True_);
       (kw_nc, demo "node-classification/ppnp-node-classification");
       (kw_lp, True_);
       (kw_rl, list_call [rl_us None; rl_dgi rl_dgi_default])];
    Algorithm_call (str "GraphWave")
      [(kw_nc, via_rl None);
       (kw_lp, via_rl None);
       (kw_rl, demo "embeddings/graphwave-embeddings")];
    Algorithm_call (str "Attri2Vec")
      [(kw_features, True_);
       (kw_nc, demo "node-classification/attri2vec-node-classification");
       (kw_lp, demo "link-prediction/attri2vec-link-prediction");
       (kw_rl, demo "embeddings/attri2vec-embeddings")];
    Algorithm_call (str "GraphSAGE")
      [(kw_heterogeneous, str "see HinSAGE");
       (kw_directed, demo "node-classification/directed-graphsage-node-classification");
       (kw_features, True_);
       (kw_nc, demo "node-classification/graphsage-node-classification");
       (kw_lp, demo "link-prediction/graphsage-link-prediction");
       (kw_rl, list_call
                 [rl_us (Some "embeddings/graphsage-unsupervised-sampler-embeddings");
                  rl_dgi rl_dgi_default]);
       (kw_inductive, demo "node-classification/graphsage-inductive-node-classification")];
    Algorithm_call (str "HinSAGE")
      [(kw_heterogeneous, True_);
       (kw_features, True_);
       (kw_nc, True_);
       (kw_lp, demo "link-prediction/hinsage-link-prediction");
       (kw_rl, rl_dgi rl_dgi_default);
       (kw_inductive, True_)];
    Algorithm_call (str "Node2Vec")
      [(kw_weighted, demo "node-classification/node2vec-weighted-node-classification");
       (kw_nc, via_rl (Some "node-classification/node2vec-node-classification"));
       (kw_lp, via_rl (Some "link-prediction/node2vec-link-prediction"));
       (kw_rl, demo "embeddings/node2vec-embeddings")];
    Algorithm_call (str "Metapath2Vec")
      [(kw_heterogeneous, True_);
       (kw_nc, via_rl None);
       (kw_lp, via_rl None);
       (kw_rl, demo "embeddings/metapath2vec-embeddings")];
    Algorithm_call (named "CTDNE" "Continuous-Time Dynamic Network Embeddings")
      [(kw_temporal, True_);
       (kw_nc, via_rl None);
       (kw_lp, via_rl (Some "link-prediction/ctdne-link-prediction"));
       (kw_rl, True_)];
    Algorithm_call (str "Watch Your Step")
      [(kw_nc, via_rl (Some "embeddings/watch-your-step-embeddings"));
       (kw_lp, via_rl None);
       (kw_rl, demo "embeddings/watch-your-step-embeddings")];
    Algorithm_call (str "ComplEx")
      [(kw_heterogeneous, HETEROGENEOUS_EDGE);
       (kw_directed, True_);
       (kw_nc, via_rl None);
       (kw_lp, demo "link-prediction/complex-link-prediction");
       (kw_rl, True_)];
    Algorithm_call (str "DistMult")
      [(kw_heterogeneous, HETEROGENEOUS_EDGE);
       (kw_directed, True_);
       (kw_nc, via_rl None);
       (kw_lp, demo "link-prediction/distmult-link-prediction");
       (kw_rl, True_)];
    Algorithm_call (named "DGCNN" "Deep Graph CNN")
      [(kw_features, True_);
       (kw_gc, demo "graph-classification/dgcnn-graph-classification")] ].

(** The list display [ALGORITHMS]. *)
Fixpoint all_of {A : Type} (calls : list (result A)) : result (list A) :=
  match calls with
  | [] => Ok []
  | r :: calls => (a <- r ;; rest <- all_of calls ;; Ok (a :: rest))%result
  end.

Definition ALGORITHMS : result (list Algorithm) := all_of ALGORITHM_calls.

(* ================================================================== *)
(** * Notions used in the statements *)

(** The leftmost occurrence of the separator in [new_middle] followed by the
    separator is that final one: [new_middle] does not contain the separator,
    and no end of [new_middle] completes one with a beginning of the
    separator that follows. *)
Definition separator_only_at_end (separator new_middle : string) : Prop :=
  partition separator (new_middle ++ separator) = Some (new_middle, "").

(** A link that begins with an HTTP(S) scheme marker, in any letter case. *)
Definition has_scheme_marker (link : string) : bool :=
  startswith (lower link) "http://" || startswith (lower link) "https://".

(** The validity of a link as the specification words it: no link is valid;
    an absolute path or a path with a scheme marker is not; any other link is
    valid when its target exists. *)
Definition valid_as_specified (exists_ : string -> bool)
    (link : option string) (base_dir : string) : bool :=
  match link with
  | None => true
  | Some link =>
      if isabs link then false
      else if has_scheme_marker link then false
      else exists_ (path_join base_dir link)
  end.

(** [itertools.chain]: the generators one after the other, up to the
    first that raises. *)
Definition chain {Y : Type} (gs : list (generator Y)) : generator Y :=
  fold_right yield_from yield_nothing gs.

(** The text up to the first line feed. *)
Definition first_line (s : string) : string :=
  match partition LF s with
  | Some (before, _) => before
  | None => s
  end.

(** [sub in s]. *)
Definition contains (s sub : string) : bool :=
  match partition sub s with
  | Some _ => true
  | None => false
  end.

(** The builder joins its lines as [indent] says, holds at least two lines,
    and [x] is the first. *)
Definition first_of_several (indent : option nat) (x : string)
    (b : HtmlBuilder) : Prop :=
  indent_amount b = indent /\ exists y l, html b = x :: y :: l.

(** A method that leaves the first of several lines in its place. *)
Definition keeps_first (m : method) : Prop :=
  forall indent x b b',
    first_of_several indent x b -> m b = Ok b' -> first_of_several indent x b'.

(** A loop body that only appends. *)
Definition only_appends {X : Type}
    (body : X -> list string -> result (list string)) : Prop :=
  forall x lines lines',
    body x lines = Ok lines' -> exists more, lines' = (lines ++ more)%list.

(** A node on which link resolution returns: it has no link, or its kind is
    a member of [LinkKind] (as [T.__init__] asserts). *)
Definition linkable (t : T) : Prop :=
  link t = None \/ exists k, kind t = Member k.

(** Cell contents as [T.textify] leaves them: nothing, a node, or a list of
    such contents. *)
Inductive normalized : element -> Prop :=
| normalized_none : normalized ENone
| normalized_node (t : T) : linkable t -> normalized (ET t)
| normalized_list (l : list element) :
    Forall normalized l -> normalized (EList l).

(** Declared inputs whose nodes are all linkable. *)
Inductive declared_input : value -> Prop :=
| declared_none : declared_input VNone
| declared_bool (b : bool) : declared_input (VBool b)
| declared_str (s : string) : declared_input (VStr s)
| declared_node (t : T) : linkable t -> declared_input (VT t)
| declared_list (l : list value) :
    Forall declared_input l -> declared_input (VList l).

(** A record with a normalized cell under each of the declared headings, as
    the constructor builds it. *)
Definition complete (a : Algorithm) : Prop :=
  map fst (columns a) = COLUMNS
  /\ Forall (fun item => normalized (snd item)) (columns a).

(** A method that returns on a builder that holds a line, and leaves a
    line. *)
Definition runs (m : method) : Prop :=
  forall b, html b <> [] -> exists b', m b = Ok b' /\ html b' <> [].

(** A method that returns on any builder, and leaves a line. *)
Definition starts (m : method) : Prop :=
  forall b, exists b', m b = Ok b' /\ html b' <> [].

(** What [element] does once the opening tag is added. *)
Definition inside_element (name : string) (body : method) : method :=
  (set_indent_level S ;;;
   fun self =>
     let initial_len := List.length (html self) in
     (body ;;;
      set_indent_level pred ;;;
      fun self =>
        HtmlBuilder_add ("</" ++ name ++ ">")
          (Nat.eqb (List.length (html self)) initial_len) self) self)%method.


From Stdlib Require Import Permutation.

(* ================================================================== *)
(** * The script at large: files, reports and runs *)

Definition DOC_URL_BASE : string :=
  "https://stellargraph.readthedocs.io/en/stable".

Definition DOCS_LINK_SEPARATOR : string := LF ++ "<!-- DOCS LINKS -->" ++ LF.

(** What is raised in the script outside the region patcher and the
    renderers: a file that cannot be opened, and the subscript of the [None]
    that a title that does not match leaves. *)
Inductive raised : Type :=
| Exn (e : exn)
| FileNotFoundError
| TypeError.

Inductive ending (A : Type) : Type :=
| Returned (a : A)
| Raised (r : raised).
Arguments Returned {A} a.
Arguments Raised {A} r.

(** The messages given to [error] by the whole script. *)
Inductive report : Type :=
| PatchReport (m : message)
| InvalidLinksReport (file : string) (base_dir : string)
    (invalid_links : list (option string * option string))
    (* "expected all links in algorithm specifications in `{__file__}` to be
       relative links that are valid starting at `{base_dir}`, but found
       {len(invalid_links)} invalid: ..." *)
| MissingIndexReport (readme index : string).
    (* "expected each demo README to match a docs 'index.txt' file, found
       `{readme}` without corresponding `{index}`" *)

(** What a run can change: the contents of the files, the working
    directory, and what was printed. *)
Record world : Type := mkworld {
  w_files : string -> option string;
  w_cwd : string;
  w_stdout : list printed;
  w_stderr : list (report * bool)
}.

Definition script (A : Type) : Type := world -> world * ending A.

Definition script_bind {A B : Type} (m : script A) (k : A -> script B)
  : script B :=
  fun w =>
    match m w with
    | (w', Returned a) => k a w'
    | (w', Raised r) => (w', Raised r)
    end.

Declare Scope script_scope.
Delimit Scope script_scope with script.
Notation "x <-- m ;; k" := (script_bind m (fun x => k))
  (at level 61, m at next level, right associativity) : script_scope.

Definition script_return {A : Type} (a : A) : script A :=
  fun w => (w, Returned a).

(** A computation that returns or raises, run in a script. *)
Definition lift {A : Type} (r : result A) : script A :=
  fun w => (w, match r with Ok a => Returned a | Raise e => Raised (Exn e) end).

(** [error(message, edit_fixit)] in a script: print, and [sys.exit(1)]
    whether or not the build agent could be called. *)
Definition script_error {A : Type} (message : report) (edit_fixit : bool)
  : script A :=
  fun w =>
    (mkworld (w_files w) (w_cwd w) (w_stdout w)
       (w_stderr w ++ [(message, edit_fixit)])%list,
     Raised (Exn (SystemExit 1))).

Definition write_file (files : string -> option string) (path data : string)
  : string -> option string :=
  fun p => if p =? path then Some data else files p.

(** [separate_compare_overwrite] on the file of that name. *)
Definition patch (file_name separator action new_middle label : string)
  : script unit :=
  fun w =>
    match w_files w file_name with
    | None => (w, Raised FileNotFoundError)
    | Some disk =>
        let r := separate_compare_overwrite file_name separator action
                   new_middle label disk in
        (mkworld (write_file (w_files w) file_name (on_disk r)) (w_cwd w)
           (w_stdout w ++ stdout r)%list
           (w_stderr w
              ++ map (fun m => (PatchReport (fst m), snd m)) (stderr r))%list,
         match ended r with
         | Ok _ => Returned tt
         | Raise e => Raised (Exn e)
         end)
    end.

(** [for x in xs: body(x)] in a script. *)
Fixpoint script_for {X : Type} (xs : list X) (body : X -> script unit)
  : script unit :=
  match xs with
  | [] => script_return tt
  | x :: xs => (_ <-- body x ;; script_for xs body)%script
  end.

(* ================================================================== *)
(** * [os.path.dirname] *)

(** [s.rstrip("/")]. *)
Fixpoint rstrip_slashes (s : string) : string :=
  match s with
  | "" => ""
  | String c s' =>
      let r := rstrip_slashes s' in
      if (r =? "") && Ascii.eqb c "/" then "" else String c r
  end.

(** [p[:p.rfind("/") + 1]]. *)
Fixpoint through_last_slash (p : string) : string :=
  match p with
  | "" => ""
  | String c p' =>
      if contains p' "/" then String c (through_last_slash p')
      else if Ascii.eqb c "/" then String c "" else ""
  end.

Definition dirname (p : string) : string :=
  let head := through_last_slash p in
  if negb (head =? "") && negb (rstrip_slashes head =? "")
  then rstrip_slashes head
  else head.

(* ================================================================== *)
(** * [tables] *)

Section Tables.

(** The path the script was started with, and [os.path.exists]. *)
Variable __file__ : string.
Variable exists_ : string -> bool.

(** The body of the loop over [FILES], for a format and its [render]. *)
Definition tables_file {F : Type} `{Format F}
    (render : F -> list heading -> list Algorithm -> result string)
    (catalog : list Algorithm) (action : string) (file_fmt : F)
  : script unit :=
  (new_table <-- lift (render file_fmt (map Declared COLUMNS) catalog) ;;
   let file_name := file_name file_fmt in
   let separator := separator file_fmt in
   let base_dir := dirname file_name in
   let found :=
     chain [find_links (EList (map ET (map column_T COLUMNS))) file_fmt;
            find_links (EList (map (fun a => EAlgorithm (columns a)) catalog))
              file_fmt] in
   _ <-- lift (snd found) ;;
   let invalid_links :=
     filter (fun written_rendered =>
               negb (link_is_valid_relative exists_ (snd written_rendered)
                       base_dir))
            (fst found) in
   _ <-- (if negb (Nat.eqb (List.length invalid_links) 0)
          then script_error (InvalidLinksReport __file__ base_dir invalid_links)
                 true
          else script_return tt) ;;
   patch file_name separator action new_table "table")%script.

(** [tables(action)], for the records of the catalog. *)
Definition tables_of (catalog : list Algorithm) (action : string)
  : script unit :=
  (_ <-- tables_file Rst_render catalog action FILES_rst ;;
   tables_file (Html_render __file__) catalog action FILES_html)%script.

Definition tables (action : string) : script unit :=
  (catalog <-- lift ALGORITHMS ;; tables_of catalog action)%script.

End Tables.

(* ================================================================== *)
(** * [demo_listing_table] and [demo_indexing] *)

(** [sorted(names)]: insertion in order, an element before the elements
    that are not less than it.  Strings are compared as Python compares
    them, character by character (the order of the bytes of UTF-8 text is
    the order of its code points). *)
Fixpoint insert (x : string) (l : list string) : list string :=
  match l with
  | [] => [x]
  | y :: l' => if String.leb x y then x :: l else y :: insert x l'
  end.

Definition sorted (l : list string) : list string := fold_right insert [] l.

(** [s.replace(old, new)] for an [old] that is not empty. *)
Definition replace (s old new : string) : string :=
  join new (split_parts (String.length s) old s).

(** [TITLE_RE.match(markdown)], the group 1 of the match: the pattern is a
    hash and a space at the start, then a group of as many characters as
    there are before a line feed. *)
Definition TITLE_RE_match (markdown : string) : option string :=
  if startswith markdown "# " then Some (first_line (drop 2 markdown))
  else None.

Section Demos.

Variable __file__ : string.
Variable exists_ : string -> bool.

(** [glob.iglob("**/*.ipynb", recursive=True)] in a directory: the
    notebooks under it, relative to it, in the order of the traversal. *)
Variable notebooks_under : string -> list string.

(** [nbformat.read(demo, as_version=4).cells], read in a directory: the
    source of each cell, a string once the notebook is read. *)
Variable nbformat_read : string -> string -> list string.

(** [glob.iglob("demos/**/", recursive=True)]. *)
Variable demo_directories : list string.

(** The row of the notebook [demo], read in the directory [inside] that
    [root] names: the body of the loop of [demo_listing_table] after the
    test for checkpoints. *)
Definition demo_row (root inside demo : string) : ending string :=
  match nbformat_read inside demo with
  | [] => Raised (Exn IndexError)
  | source :: _ =>
      (* "".join of a string is the string *)
      let markdown := source in
      match TITLE_RE_match markdown with
      | None => Raised TypeError
      | Some text =>
          let demo_html := replace demo ".ipynb" ".html" in
          let url := path_join (path_join DOC_URL_BASE root) demo_html in
          Returned ("| [" ++ text ++ "](" ++ url ++ ") | [source](" ++ demo
                    ++ ") |")
      end
  end.

(** The loop of [demo_listing_table] over the sorted notebooks: the lines
    yielded, and how the loop ended. *)
Fixpoint demo_rows (root inside : string) (demos : list string)
  : list string * ending unit :=
  match demos with
  | [] => ([], Returned tt)
  | demo :: demos =>
      if contains demo ".ipynb_checkpoint" then demo_rows root inside demos
      else
        match demo_row root inside demo with
        | Returned row =>
            let (rows, e) := demo_rows root inside demos in (row :: rows, e)
        | Raised r => ([], Raised r)
        end
  end.

(** [demo_listing_table(root)], run to its end by the [join] that consumes
    it: the working directory is changed to [root] (a directory that the
    search for directories found) and, in the [finally] clause, back. *)
Definition demo_listing_table (root : string) : script (list string) :=
  fun w =>
    let repo_dir := w_cwd w in
    let inside := path_join repo_dir root in
    let (rows, e) :=
      demo_rows root inside (sorted (notebooks_under inside)) in
    (mkworld (w_files w) repo_dir (w_stdout w) (w_stderr w),
     match e with
     | Returned _ => Returned ("| Demo | Source |" :: "|---|---|" :: rows)
     | Raised r => Raised r
     end).

Definition AUTOGENERATED_COMMENT : string :=
  "<!-- " ++ AUTOGENERATED_PROMPT __file__ ++ " -->".

Definition listing_suffix : string :=
  "The demo titles link to the latest, nicely rendered version. The 'source' links will open the demo in the application in which this README is being viewed, such as Jupyter Lab (ready for execution).".

Definition new_contents (link listing suffix : string) : string :=
  AUTOGENERATED_COMMENT ++ LF ++ LF
  ++ "These demos are displayed with detailed descriptions in the documentation: "
  ++ link ++ LF ++ LF ++ listing ++ LF ++ LF ++ suffix.

(** The body of the loop of [demo_indexing]. *)
Definition demo_indexing_directory (action directory : string) : script unit :=
  let root_dir := "demos/" in
  let readme := path_join directory "README.md" in
  if negb (exists_ readme) then
    (* FIXME(#1139): some demos directories don't have a README *)
    script_return tt
  else
    let index := path_join (path_join "docs" directory) "index.txt" in
    (_ <-- (if negb (exists_ index)
            then script_error (MissingIndexReport readme index) false
            else script_return tt) ;;
     let link := DOC_URL_BASE ++ "/" ++ directory in
     listing_suffix <--
       (if negb (directory =? root_dir) then
          (* the root readme already has the detailed table in it *)
          (rows <-- demo_listing_table directory ;;
           script_return (join LF rows, listing_suffix))
        else script_return ("", "")) ;;
     patch readme DOCS_LINK_SEPARATOR action
       (new_contents link (fst listing_suffix) (snd listing_suffix))
       "docs link")%script.

Definition demo_indexing (action : string) : script unit :=
  script_for demo_directories (demo_indexing_directory action).

(** [main], once the arguments are parsed: [args.action] is "compare" or
    "overwrite". *)
Definition main (action : string) : script unit :=
  (_ <-- tables __file__ exists_ action ;; demo_indexing action)%script.

End Demos.

(* ================================================================== *)
(** * Further notions used in the statements *)

(** The argument of the constructor that goes under a heading. *)
Definition argument_for
    (algorithm heterogeneous directed weighted temporal features nc lp rl
       inductive gc : value) (c : column) : value :=
  match c with
  | ALGORITHM => algorithm
  | HETEROGENEOUS => heterogeneous
  | DIRECTED => directed
  | WEIGHTED => weighted
  | TEMPORAL => temporal
  | FEATURES => features
  | NC => nc
  | LP => lp
  | RL => rl
  | INDUCTIVE => inductive
  | GC => gc
  end.


(** A method that raises [e] on every builder that holds a line. *)
Definition raises (e : exn) (m : method) : Prop :=
  forall b, html b <> [] -> m b = Raise e.

(** The second world holds what the first holds in every file, and has its
    working directory. *)
Definition same_files (w w' : world) : Prop :=
  (forall path, w_files w' path = w_files w path) /\ w_cwd w' = w_cwd w.

(** A script that changes no file and ends in the directory it began in. *)
Definition read_only {A : Type} (m : script A) : Prop :=
  forall w, same_files w (fst (m w)).

(** The second world is the first: the same files and directory, and
    nothing more printed. *)
Definition same_world (w w' : world) : Prop :=
  same_files w w' /\ w_stdout w' = w_stdout w /\ w_stderr w' = w_stderr w.

(** The file holds exactly [new_middle] between two separators, and is
    read as it is. *)
Definition settled (file_name separator new_middle : string) (w : world)
  : Prop :=
  exists a c,
    w_files w file_name
    = Some (a ++ separator ++ new_middle ++ separator ++ c)
    /\ split (universal_newlines
                (a ++ separator ++ new_middle ++ separator ++ c)) separator
       = Ok [a; new_middle; c].

(** A checkout in which the two files of the tables hold an old table
    between their separators. *)
Definition a_checkout : world :=
  mkworld
    (fun path =>
       if path =? file_name FILES_rst then
         Some ("Demos" ++ separator FILES_rst ++ "old table"
               ++ separator FILES_rst ++ "End")
       else if path =? file_name FILES_html then
         Some ("# Demos" ++ separator FILES_html ++ "old table"
               ++ separator FILES_html ++ "End")
       else None)
    "/repo" [] [].



(** The links of the headings and of the records, as [tables] collects
    them for a format. *)
Definition links_found {F : Type} `{Format F} (catalog : list Algorithm)
    (file_fmt : F) : generator (option string * option string) :=
  chain [find_links (EList (map ET (map column_T COLUMNS))) file_fmt;
         find_links (EList (map (fun a => EAlgorithm (columns a)) catalog))
           file_fmt].

(** [error] was called with this message, and the script exited. *)
Definition exits_with (message : report) (edit_fixit : bool) (w : world)
    (end_ : world * ending unit) : Prop :=
  end_
  = (mkworld (w_files w) (w_cwd w) (w_stdout w)
       (w_stderr w ++ [(message, edit_fixit)])%list,
     Raised (Exn (SystemExit 1))).

(** From the first world to the second no file was created or deleted, and
    the files outside [targets] hold what they held. *)
Definition within (targets : string -> Prop) (w w' : world) : Prop :=
  forall path,
    (w_files w' path = None <-> w_files w path = None)
    /\ (~ targets path -> w_files w' path = w_files w path).

(** A script that writes only to files that exist among [targets]. *)
Definition touches_only {A : Type} (targets : string -> Prop) (m : script A)
  : Prop :=
  forall w, within targets w (fst (m w)).

(** The files a run may write: the two files of the tables, and the README
    of each directory of demos. *)
Definition written_by_run (demo_directories : list string) (path : string)
  : Prop :=
  path = file_name FILES_rst
  \/ path = file_name FILES_html
  \/ exists directory,
       In directory demo_directories
       /\ path = path_join directory "README.md".

(* ================================================================== *)
(** * Facts about strings *)

Lemma append_assoc (a b c : string) : (a ++ b) ++ c = a ++ (b ++ c).
Proof. induction a as [|x a IH]; simpl; [reflexivity | now rewrite IH]. Qed.

Lemma append_empty_r (a : string) : a ++ "" = a.
Proof. induction a as [|x a IH]; simpl; [reflexivity | now rewrite IH]. Qed.

Lemma length_append (a b : string) :
  String.length (a ++ b) = String.length a + String.length b.
Proof. induction a as [|x a IH]; simpl; [reflexivity | now rewrite IH]. Qed.

Lemma length_zero_empty (a : string) : String.length a = 0 -> a = "".
Proof. destruct a; simpl; [reflexivity | discriminate]. Qed.

Lemma nonempty_length (a : string) : a <> "" -> 0 < String.length a.
Proof. destruct a; simpl; [now intros H; elim H | lia]. Qed.

Lemma append_eq_empty (a b : string) : a ++ b = "" -> b = "".
Proof. destruct a; [trivial | discriminate]. Qed.

Lemma take_append (a b : string) : take (String.length a) (a ++ b) = a.
Proof. induction a as [|x a IH]; simpl; [now destruct b | now rewrite IH]. Qed.

Lemma drop_append (a b : string) : drop (String.length a) (a ++ b) = b.
Proof. induction a as [|x a IH]; simpl; [reflexivity | exact IH]. Qed.

Lemma prefix_empty (s : string) : prefix "" s = true.
Proof. now destruct s. Qed.

Lemma prefix_cons (c d : ascii) (p s : string) :
  prefix (String c p) (String d s) = Ascii.eqb c d && prefix p s.
Proof.
  simpl. destruct (ascii_dec c d) as [->|Hn].
  - now rewrite Ascii.eqb_refl.
  - apply Ascii.eqb_neq in Hn. now rewrite Hn.
Qed.

Lemma prefix_append (p s : string) : prefix p (p ++ s) = true.
Proof.
  induction p as [|x p IH]; [apply prefix_empty |].
  change (String x p ++ s) with (String x (p ++ s)).
  now rewrite prefix_cons, Ascii.eqb_refl, IH.
Qed.

Lemma prefix_inv (p s : string) :
  prefix p s = true -> s = p ++ drop (String.length p) s.
Proof.
  revert s; induction p as [|x p IH]; intros s Hp; [reflexivity |].
  destruct s as [|y s]; [discriminate Hp |].
  rewrite prefix_cons in Hp. apply andb_prop in Hp as [Hc Hp].
  apply Ascii.eqb_eq in Hc. subst y. simpl. f_equal. now apply IH.
Qed.


(** Whether [p] starts a string is decided by the first [length p]
    characters. *)
Lemma prefix_head (p x y y' : string) :
  String.length p <= String.length x ->
  prefix p (x ++ y) = prefix p (x ++ y').
Proof.
  revert x; induction p as [|c p IH]; intros x Hx.
  - now rewrite !prefix_empty.
  - destruct x as [|d x]; simpl in Hx; [lia |].
    change (String d x ++ y) with (String d (x ++ y)).
    change (String d x ++ y') with (String d (x ++ y')).
    rewrite !prefix_cons. f_equal. apply IH. lia.
Qed.

(** ** [partition] *)

Lemma partition_here (sep s : string) :
  prefix sep s = true ->
  partition sep s = Some ("", drop (String.length sep) s).
Proof. intros Hp. destruct s; cbn [partition]; now rewrite Hp. Qed.

Lemma partition_later (sep : string) (c : ascii) (s : string) :
  prefix sep (String c s) = false ->
  partition sep (String c s) =
    match partition sep s with
    | Some (before, after) => Some (String c before, after)
    | None => None
    end.
Proof. intros Hp. cbn [partition]. now rewrite Hp. Qed.


Lemma partition_sound (sep s before after : string) :
  partition sep s = Some (before, after) -> s = before ++ sep ++ after.
Proof.
  revert before; induction s as [|c s IH]; intros before.
  - destruct sep; [| discriminate]. now intros [= <- <-].
  - destruct (prefix sep (String c s)) eqn:Hp.
    + rewrite (partition_here _ _ Hp). intros [= <- <-].
      exact (prefix_inv _ _ Hp).
    + rewrite (partition_later _ _ _ Hp).
      destruct (partition sep s) as [[b a]|]; [| discriminate].
      intros [= <- <-]. simpl. f_equal. now apply IH.
Qed.

Lemma partition_length (sep s before after : string) :
  partition sep s = Some (before, after) ->
  String.length s = String.length before + String.length sep + String.length after.
Proof.
  intros Hp. rewrite (partition_sound _ _ _ _ Hp) at 1.
  rewrite !length_append. lia.
Qed.

(** The leftmost occurrence does not depend on what follows it. *)
Lemma partition_tail (sep before after after' : string) :
  partition sep (before ++ sep ++ after) = Some (before, after) ->
  partition sep (before ++ sep ++ after') = Some (before, after').
Proof.
  induction before as [|c before IH]; intros Hp.
  - simpl append at 1.
    now rewrite partition_here, drop_append by apply prefix_append.
  - change (String c before ++ sep ++ after')
      with (String c (before ++ sep ++ after')).
    change (String c before ++ sep ++ after)
      with (String c (before ++ sep ++ after)) in Hp.
    assert (Hh : forall z, String c (before ++ sep ++ z)
                           = (String c before ++ sep) ++ z)
      by (intros z; simpl; now rewrite append_assoc).
    destruct (prefix sep (String c (before ++ sep ++ after))) eqn:Hpre.
    + rewrite (partition_here _ _ Hpre) in Hp. discriminate Hp.
    + rewrite (partition_later _ _ _ Hpre) in Hp.
      rewrite partition_later.
      * destruct (partition sep (before ++ sep ++ after)) as [[b a]|] eqn:Hq;
          [| discriminate].
        injection Hp as Hb Ha. subst b a.
        now rewrite (IH eq_refl).
      * rewrite Hh, (prefix_head sep _ after' after), <- Hh
          by (rewrite length_append; lia).
        exact Hpre.
Qed.

(** ** [split] *)

Lemma split_parts_fuel (fuel fuel' : nat) (sep s : string) :
  sep <> "" -> String.length s <= fuel -> String.length s <= fuel' ->
  split_parts fuel sep s = split_parts fuel' sep s.
Proof.
  intros Hsep. apply nonempty_length in Hsep.
  revert fuel' s; induction fuel as [|fuel IH]; intros [|fuel'] s Hs Hs';
    cbn [split_parts];
    destruct (partition sep s) as [[b a]|] eqn:Hp; try reflexivity;
    pose proof (partition_length _ _ _ _ Hp) as Hl; try lia.
  f_equal. apply IH; lia.
Qed.

Lemma split_parts_nonempty (fuel : nat) (sep s : string) :
  split_parts fuel sep s <> [].
Proof.
  destruct fuel; cbn [split_parts];
    destruct (partition sep s) as [[b a]|]; discriminate.
Qed.

Lemma split_parts_unfold (fuel : nat) (sep s : string) :
  sep <> "" -> String.length s <= fuel ->
  split_parts fuel sep s =
    match partition sep s with
    | None => [s]
    | Some (before, after) =>
        before :: split_parts (String.length after) sep after
    end.
Proof.
  intros Hsep Hs. pose proof (nonempty_length _ Hsep) as Hpos.
  destruct fuel as [|fuel]; cbn [split_parts];
    destruct (partition sep s) as [[b a]|] eqn:Hp; try reflexivity;
    pose proof (partition_length _ _ _ _ Hp) as Hl; try lia.
  f_equal. apply split_parts_fuel; [assumption | lia | lia].
Qed.

(** [s.split(sep)] for a non-empty separator, as Python defines it. *)
Lemma split_unfold (s sep : string) :
  sep <> "" ->
  split s sep =
    match partition sep s with
    | None => Ok [s]
    | Some (before, after) =>
        (rest <- split after sep ;; Ok (before :: rest))%result
    end.
Proof.
  intros Hsep. unfold split.
  apply String.eqb_neq in Hsep as Hb. rewrite Hb.
  rewrite split_parts_unfold by (assumption || lia).
  now destruct (partition sep s) as [[b a]|].
Qed.

(** Three parts: the two separators are where they are expected. *)
Lemma split_three (s sep a b c : string) :
  sep <> "" ->
  split s sep = Ok [a; b; c] <->
  partition sep s = Some (a, b ++ sep ++ c)
  /\ partition sep (b ++ sep ++ c) = Some (b, c)
  /\ partition sep c = None.
Proof.
  intros Hsep. rewrite split_unfold by assumption. split.
  - destruct (partition sep s) as [[b1 a1]|] eqn:H1; [| discriminate].
    rewrite split_unfold by assumption.
    destruct (partition sep a1) as [[b2 a2]|] eqn:H2; [| discriminate].
    rewrite split_unfold by assumption.
    destruct (partition sep a2) as [[b3 a3]|] eqn:H3.
    + unfold split. apply String.eqb_neq in Hsep. rewrite Hsep. simpl.
      destruct (split_parts _ sep a3) eqn:Hparts; [| discriminate].
      now apply split_parts_nonempty in Hparts.
    + simpl. intros [= <- <- <-].
      pose proof (partition_sound _ _ _ _ H2) as ->. auto.
  - intros (H1 & H2 & H3). rewrite H1.
    rewrite split_unfold, H2 by assumption.
    rewrite split_unfold, H3 by assumption. reflexivity.
Qed.

(** ** [count] *)




(* ================================================================== *)
(** * The region patcher: what a call does *)

Lemma join_five (a b c d e : string) :
  join "" [a; b; c; d; e] = a ++ b ++ c ++ d ++ e.
Proof. reflexivity. Qed.

(** Writing at the start leaves the old bytes past the new data in place;
    [truncate] is what removes them. *)
Lemma write_leaves_tail (data disk : string) :
  contents (write data (seek 0 (snd (read (open disk)))))
  = data ++ drop (String.length data) disk.
Proof. unfold write, seek, read, open. simpl. now destruct disk. Qed.

Lemma write_truncate (data disk : string) :
  contents (truncate (write data (seek 0 (snd (read (open disk)))))) = data.
Proof.
  unfold truncate, write, seek, read, open.
  cbn [position contents snd Nat.add Nat.sub nuls].
  replace (take 0 disk) with "" by now destruct disk.
  cbn [append].
  rewrite take_append, length_append.
  replace (String.length data
           - (String.length data + String.length (drop (String.length data) disk)))
    with 0 by lia.
  apply append_empty_r.
Qed.

(** The text a handle reads holds no carriage return, and bytes without
    one are read as they are. *)
Lemma mentions_append (c : ascii) (a b : string) :
  mentions c (a ++ b) = mentions c a || mentions c b.
Proof.
  induction a as [|x a IH]; [reflexivity |].
  cbn [append mentions]. now rewrite IH, orb_assoc.
Qed.

Lemma universal_newlines_cons (c : ascii) (s : string) :
  Ascii.eqb c CR = false ->
  universal_newlines (String c s) = String c (universal_newlines s).
Proof. intros Hc. cbn [universal_newlines]. now rewrite Hc. Qed.

Lemma universal_newlines_without_CR (s : string) :
  mentions CR (universal_newlines s) = false.
Proof.
  induction s as [|c s IH]; [reflexivity |].
  destruct (Ascii.eqb c CR) eqn:Hc.
  - apply Ascii.eqb_eq in Hc. subst c.
    destruct s as [|d s]; [reflexivity |].
    destruct (Ascii.eqb d "010") eqn:Hd.
    + apply Ascii.eqb_eq in Hd. subst d. exact IH.
    + assert (Hu : universal_newlines (String CR (String d s))
                   = String "010" (universal_newlines (String d s))).
      { cbn [universal_newlines]. rewrite Ascii.eqb_refl.
        destruct d as [[] [] [] [] [] [] [] []]; try reflexivity.
        discriminate Hd. }
      rewrite Hu. cbn [mentions]. now rewrite IH.
  - rewrite (universal_newlines_cons _ _ Hc). cbn [mentions].
    now rewrite Ascii.eqb_sym, Hc, IH.
Qed.

Lemma universal_newlines_id (s : string) :
  mentions CR s = false -> universal_newlines s = s.
Proof.
  induction s as [|c s IH]; [reflexivity |].
  cbn [mentions]. intros Hm. apply orb_false_elim in Hm as [Hc Hm].
  rewrite Ascii.eqb_sym in Hc.
  now rewrite (universal_newlines_cons _ _ Hc), (IH Hm).
Qed.


Lemma patch_three (file_name separator action new_middle label disk : string)
    (a b c : string) :
  split (universal_newlines disk) separator = Ok [a; b; c] ->
  separate_compare_overwrite file_name separator action new_middle label disk
  = if (action =? "compare") && negb (new_middle =? b) then
      error disk [UnifiedDiff b new_middle file_name] (Differs label file_name) true
    else if action =? "overwrite" then
      mkoutcome (a ++ separator ++ new_middle ++ separator ++ c) [] [] (Ok tt)
    else mkoutcome disk [] [] (Ok tt).
Proof.
  intros Hs. unfold separate_compare_overwrite.
  cbv beta iota zeta delta [read open position contents].
  cbn [drop]. rewrite Hs. cbn [List.length Nat.eqb negb].
  destruct ((action =? "compare") && negb (new_middle =? b)); [reflexivity |].
  destruct (action =? "overwrite"); [| reflexivity].
  f_equal. rewrite join_five.
  exact (write_truncate _ disk).
Qed.

Lemma patch_not_three (file_name separator action new_middle label disk : string)
    (parts : list string) :
  split (universal_newlines disk) separator = Ok parts ->
  List.length parts <> 3 ->
  separate_compare_overwrite file_name separator action new_middle label disk
  = error disk [] (SeparatorInstances file_name (List.length parts - 1) separator) false.
Proof.
  intros Hs Hn. unfold separate_compare_overwrite.
  cbv beta iota zeta delta [read open position contents].
  cbn [drop]. rewrite Hs.
  apply Nat.eqb_neq in Hn. now rewrite Hn.
Qed.


Lemma split_three_sound (s sep a b c : string) :
  split s sep = Ok [a; b; c] -> s = a ++ sep ++ b ++ sep ++ c.
Proof.
  intros Hs.
  assert (Hsep : sep <> "")
    by (intros ->; discriminate Hs).
  apply split_three in Hs as (H1 & _ & _); [| assumption].
  exact (partition_sound _ _ _ _ H1).
Qed.

(** A successful call found three parts. *)
Lemma patch_ok_inv (file_name separator action new_middle label disk : string) :
  ended (separate_compare_overwrite file_name separator action new_middle label disk)
  = Ok tt ->
  exists a b c, split (universal_newlines disk) separator = Ok [a; b; c].
Proof.
  intros He.
  destruct (split (universal_newlines disk) separator) as [parts|e] eqn:Hs.
  - destruct (Nat.eq_dec (List.length parts) 3) as [H3|H3].
    + destruct parts as [|a [|b [|c [|d parts]]]]; try discriminate H3.
      now exists a, b, c.
    + rewrite (patch_not_three _ _ _ _ _ _ _ Hs H3) in He. discriminate He.
  - unfold separate_compare_overwrite in He.
    cbv beta iota zeta delta [read open position contents] in He.
    cbn [drop] in He. rewrite Hs in He. discriminate He.
Qed.

(** After an overwrite with a middle that meets the separator only at its
    end, the file splits into the old prefix, that middle and the old
    suffix. *)
Lemma split_after_overwrite (separator new_middle disk a b c : string) :
  separator_only_at_end separator new_middle ->
  split disk separator = Ok [a; b; c] ->
  split (a ++ separator ++ new_middle ++ separator ++ c) separator
  = Ok [a; new_middle; c].
Proof.
  intros Hend Hs.
  assert (Hsep : separator <> "") by (intros ->; discriminate Hs).
  apply split_three in Hs as (H1 & H2 & H3); [| assumption].
  apply split_three; [assumption |]. repeat split.
  - pose proof (partition_sound _ _ _ _ H1) as Hd. rewrite Hd in H1.
    exact (partition_tail _ _ _ _ H1).
  - unfold separator_only_at_end in Hend.
    rewrite <- (append_empty_r separator) in Hend at 2.
    exact (partition_tail _ _ _ _ Hend).
  - exact H3.
Qed.

(** A middle that meets the separator only at its end does not contain
    it. *)
Lemma separator_only_at_end_not_inside (separator new_middle : string) :
  separator <> "" -> separator_only_at_end separator new_middle ->
  partition separator new_middle = None.
Proof.
  unfold separator_only_at_end. intros Hsep Hend.
  destruct (partition separator new_middle) as [[b a]|] eqn:Hp; [| reflexivity].
  pose proof (partition_sound _ _ _ _ Hp) as Hm.
  rewrite Hm in Hp.
  pose proof (partition_tail _ _ _ (a ++ separator) Hp) as Hq.
  rewrite Hm, !append_assoc, Hq in Hend.
  injection Hend as _ He. apply append_eq_empty in He. now elim Hsep.
Qed.

(** The parts of a text that was read hold no carriage return, and neither
    does a separator found in it. *)
Lemma parts_without_CR (disk separator a b c : string) :
  split (universal_newlines disk) separator = Ok [a; b; c] ->
  mentions CR a = false /\ mentions CR separator = false
  /\ mentions CR b = false /\ mentions CR c = false.
Proof.
  intros Hs. pose proof (universal_newlines_without_CR disk) as Hd.
  rewrite (split_three_sound _ _ _ _ _ Hs), !mentions_append in Hd.
  repeat (apply orb_false_elim in Hd as [? Hd]). now repeat split.
Qed.

(** After an overwrite with a middle that holds no carriage return and meets
    the separator only at its end, the text of the file splits into the old
    prefix, that middle and the old suffix. *)
Lemma reread_after_overwrite (separator new_middle disk a b c : string) :
  mentions CR new_middle = false ->
  separator_only_at_end separator new_middle ->
  split (universal_newlines disk) separator = Ok [a; b; c] ->
  split (universal_newlines
           (a ++ separator ++ new_middle ++ separator ++ c)) separator
  = Ok [a; new_middle; c].
Proof.
  intros Hnew Hend Hs.
  destruct (parts_without_CR _ _ _ _ _ Hs) as (Ha & Hsep & _ & Hc).
  rewrite universal_newlines_id
    by (rewrite !mentions_append, Ha, Hsep, Hnew, Hc; reflexivity).
  exact (split_after_overwrite _ _ _ _ _ _ Hend Hs).
Qed.

(* ================================================================== *)
(** * The region patcher: the properties *)






(** C1, as the code has it.  When the new middle holds no carriage return
    and meets the separator only at its end, a successful overwrite followed
    by a second overwrite leaves the same bytes, and a compare right after
    the overwrite succeeds, prints no diff and leaves the file as it is. *)
Theorem overwrite_then_overwrite_or_compare
    (file_name separator new_middle label disk : string) :
  mentions CR new_middle = false ->
  separator_only_at_end separator new_middle ->
  let first := separate_compare_overwrite file_name separator "overwrite"
                 new_middle label disk in
  ended first = Ok tt ->
  separate_compare_overwrite file_name separator "overwrite" new_middle label
    (on_disk first)
  = mkoutcome (on_disk first) [] [] (Ok tt)
  /\ separate_compare_overwrite file_name separator "compare" new_middle label
       (on_disk first)
     = mkoutcome (on_disk first) [] [] (Ok tt).
Proof.
  intros Hnew Hend. cbv zeta. intros Hok.
  destruct (patch_ok_inv _ _ _ _ _ _ Hok) as (a & b & c & Hs).
  rewrite (patch_three _ _ _ _ _ _ _ _ _ Hs).
  cbn [String.eqb Ascii.eqb Bool.eqb andb on_disk].
  pose proof (reread_after_overwrite _ _ _ _ _ _ Hnew Hend Hs) as Hs'.
  rewrite !(patch_three _ _ _ _ _ _ _ _ _ Hs').
  rewrite String.eqb_refl.
  cbn [String.eqb Ascii.eqb Bool.eqb andb negb]. split; reflexivity.
Qed.

Lemma overwrite_then_overwrite_or_compare_witness :
  exists catalog table,
    ALGORITHMS = Ok catalog
    /\ Rst_render FILES_rst (map Declared COLUMNS) catalog = Ok table
    /\ mentions CR table = false
    /\ let after :=
         "Demos" ++ Rst_separator FILES_rst ++ table ++ Rst_separator FILES_rst
         ++ "End" in
       separate_compare_overwrite (Rst_file_name FILES_rst)
         (Rst_separator FILES_rst) "overwrite" table "table" after
       = mkoutcome after [] [] (Ok tt)
       /\ separate_compare_overwrite (Rst_file_name FILES_rst)
            (Rst_separator FILES_rst) "compare" table "table" after
          = mkoutcome after [] [] (Ok tt).
Proof.
  eexists _, _.
  split; [vm_compute; reflexivity |].
  split; [vm_compute; reflexivity |].
  split; [vm_compute; reflexivity |].
  cbv zeta.
  match goal with
  | |- separate_compare_overwrite ?f ?sep "overwrite" ?table ?label ?after = _ /\ _ =>
      pose proof (overwrite_then_overwrite_or_compare f sep table label
                    ("Demos" ++ sep ++ "an old table" ++ sep ++ "End")) as Hw;
      cbv zeta in Hw;
      assert (Hafter :
                on_disk (separate_compare_overwrite f sep "overwrite" table label
                           ("Demos" ++ sep ++ "an old table" ++ sep ++ "End"))
                = after) by (vm_compute; reflexivity);
      rewrite Hafter in Hw;
      apply Hw; vm_compute; reflexivity
  end.
Defined.

(** C1, as stated, fails: with the separator of [docs/demos/index.rst] and a
    catalog of one heading whose text ends with the marker lines, the table
    followed by the separator holds a separator one line early.  The first
    overwrite succeeds; a second one succeeds too and leaves other bytes (the
    file grows); a compare right after the first overwrite exits with the
    "differs" error. *)
Lemma overwrite_twice_differs :
  let separator := Rst_separator FILES_rst in
  let heading :=
    Undeclared (mkT ("x" ++ LF ++ ".." ++ LF ++ "   DEMO TABLE MARKER")
                  None None (Member notebook)) in
  let table :=
    ".. list-table::" ++ LF ++ "   :header-rows: 1" ++ LF ++ LF
    ++ "   *" ++ LF
    ++ "     - x" ++ LF ++ ".." ++ LF ++ "   DEMO TABLE MARKER" in
  let disk := "P" ++ separator ++ "old" ++ separator ++ "S" in
  let first := separate_compare_overwrite "docs/demos/index.rst" separator
                 "overwrite" table "table" disk in
  let second := separate_compare_overwrite "docs/demos/index.rst" separator
                  "overwrite" table "table" (on_disk first) in
  let compared := separate_compare_overwrite "docs/demos/index.rst" separator
                    "compare" table "table" (on_disk first) in
  Rst_render FILES_rst [heading] [] = Ok table
  /\ first = mkoutcome ("P" ++ separator ++ table ++ separator ++ "S") [] [] (Ok tt)
  /\ second = mkoutcome ("P" ++ separator ++ table ++ separator
                           ++ ".." ++ LF ++ "   DEMO TABLE MARKER" ++ LF ++ "S")
                [] [] (Ok tt)
  /\ on_disk second <> on_disk first
  /\ ended compared = Raise (SystemExit 1)
  /\ on_disk compared = on_disk first.
Proof.
  cbv zeta. repeat split; try (vm_compute; reflexivity).
  apply String.eqb_neq. vm_compute. reflexivity.
Qed.

(* ================================================================== *)
(** * The link validator *)

Lemma prefix_shorter (a b s : string) :
  prefix (a ++ b) s = true -> prefix a s = true.
Proof.
  revert s; induction a as [|c a IH]; intros s Hp; [apply prefix_empty |].
  destruct s as [|d s]; [discriminate Hp |].
  change (String c a ++ b) with (String c (a ++ b)) in Hp.
  rewrite prefix_cons in Hp |- *.
  apply andb_prop in Hp as [-> Hp]. now rewrite (IH _ Hp).
Qed.

Lemma scheme_marker_http (link : string) :
  has_scheme_marker link = true -> startswith (lower link) "http" = true.
Proof.
  unfold has_scheme_marker, startswith. intros Hm.
  apply orb_prop in Hm as [Hm|Hm].
  - exact (prefix_shorter "http" "://" _ Hm).
  - exact (prefix_shorter "http" "s://" _ Hm).
Qed.

Lemma path_join_relative (base_dir link : string) :
  isabs link = false ->
  path_join base_dir link =
    if (base_dir =? "") || endswith_slash base_dir then base_dir ++ link
    else base_dir ++ "/" ++ link.
Proof. unfold path_join, isabs. now intros ->. Qed.

(** C4, as the code has it.  No link is valid; an absolute path is not; a
    path whose lower-cased form begins with the four letters "http" is not,
    which covers every path that begins with a scheme marker; any other link
    is valid exactly when an entry exists at the base directory joined with
    it. *)
Theorem link_is_valid_relative_cases
    (exists_ : string -> bool) (base_dir : string) :
  link_is_valid_relative exists_ None base_dir = true
  /\ (forall link, isabs link = true ->
        link_is_valid_relative exists_ (Some link) base_dir = false)
  /\ (forall link, startswith (lower link) "http" = true ->
        link_is_valid_relative exists_ (Some link) base_dir = false)
  /\ (forall link, has_scheme_marker link = true ->
        link_is_valid_relative exists_ (Some link) base_dir = false)
  /\ (forall link, isabs link = false ->
        startswith (lower link) "http" = false ->
        link_is_valid_relative exists_ (Some link) base_dir
        = exists_ (if (base_dir =? "") || endswith_slash base_dir
                   then base_dir ++ link
                   else base_dir ++ "/" ++ link)).
Proof.
  assert (Hhttp : forall link, startswith (lower link) "http" = true ->
            link_is_valid_relative exists_ (Some link) base_dir = false).
  { intros link Hh. unfold link_is_valid_relative. rewrite Hh.
    now destruct (isabs link). }
  repeat split.
  - intros link Ha. unfold link_is_valid_relative. now rewrite Ha.
  - exact Hhttp.
  - intros link Hm. apply Hhttp. now apply scheme_marker_http.
  - intros link Ha Hh. unfold link_is_valid_relative.
    now rewrite Ha, Hh, path_join_relative.
Qed.

(** C4, as stated, fails: a relative link to an existing entry whose name
    begins with "http" has no scheme marker, so the wording makes it valid,
    and the validator rejects it. *)
Lemma link_is_valid_relative_not_as_specified :
  let exists_ := fun path : string => path =? "docs/demos/http-notes/index.rst" in
  let link := "http-notes/index.rst" in
  isabs link = false
  /\ has_scheme_marker link = false
  /\ exists_ (path_join "docs/demos" link) = true
  /\ valid_as_specified exists_ (Some link) "docs/demos" = true
  /\ link_is_valid_relative exists_ (Some link) "docs/demos" = false.
Proof. cbv zeta. repeat split; reflexivity. Qed.

(** C9.  The remote-link test is the bare prefix test: every link whose
    lower-cased form begins with "http" is invalid whatever exists on disk,
    and "http-notes/index.rst" is such a link, relative and without a scheme
    marker, rejected even where its target exists. *)
Theorem http_prefix_is_rejected :
  (forall (exists_ : string -> bool) (link base_dir : string),
     startswith (lower link) "http" = true ->
     link_is_valid_relative exists_ (Some link) base_dir = false)
  /\ isabs "http-notes/index.rst" = false
  /\ has_scheme_marker "http-notes/index.rst" = false
  /\ startswith (lower "http-notes/index.rst") "http" = true
  /\ (forall (exists_ : string -> bool) (base_dir : string),
        exists_ (path_join base_dir "http-notes/index.rst") = true ->
        link_is_valid_relative exists_ (Some "http-notes/index.rst") base_dir
        = false).
Proof.
  repeat split; try reflexivity.
  intros exists_ link base_dir Hh. unfold link_is_valid_relative.
  rewrite Hh. now destruct (isabs link).
Qed.

Lemma http_prefix_is_rejected_witness :
  link_is_valid_relative (fun _ => true) (Some "http-notes/index.rst") "docs/demos"
  = false.
Proof.
  exact (proj2 (proj2 (proj2 (proj2 http_prefix_is_rejected)))
           (fun _ => true) "docs/demos" eq_refl).
Defined.

(* ================================================================== *)
(** * Link resolution *)

(** C6.  For a node of kind [index] with link "node-classification" (the
    heading [NC] is one): checking resolution gives
    "node-classification/README.md" in the hypertext format and
    "node-classification/index.rst" in the structured-text format; rendering
    resolution gives "node-classification/index" in the structured-text
    format and is the same as checking resolution in the hypertext format. *)
Theorem link_suffix_asymmetry
    (html : Html) (rst : Rst) (text : string) (details : option string) :
  let t := mkT text (Some "node-classification") details (Member index) in
  Format_link html t true = Ok (Some "node-classification/README.md")
  /\ Format_link rst t true = Ok (Some "node-classification/index.rst")
  /\ Format_link rst t false = Ok (Some "node-classification/index")
  /\ Format_link html t false = Format_link html t true
  /\ index_link (Some "NC") (Some "node-classification")
       (Some "Node classification") = Ok (column_T NC)
  /\ column_T NC = mkT "NC" (Some "node-classification")
                     (Some "Node classification") (Member index).
Proof. cbv zeta. repeat split; reflexivity. Qed.

Lemma T_init_fields (text0 link0 details0 : option string) (kind0 : kind_value) (t : T) :
  T_init text0 link0 details0 kind0 = Ok t ->
  link t = link0 /\ details t = details0
  /\ kind t = kind0 /\ isinstance_LinkKind kind0 = true
  /\ text t = match text0 with Some s => s | None => LINK_DEFAULT_TEXT end
  /\ (text0 = None -> link0 <> None).
Proof.
  unfold T_init. destruct text0 as [s|]; [| destruct link0 as [l|]];
    cbn [bind]; destruct (isinstance_LinkKind kind0) eqn:Hk;
    try discriminate; intros [= <-]; cbn; repeat split; congruence.
Qed.

(** C10.  A node that [T.__init__] returned has a member of [LinkKind] as its
    kind, so on it, for every format and both modes, [Format.link] returns
    (the branch that leaves [suffix] unassigned is not taken), and it returns
    [None] exactly when the node has no link. *)
Theorem link_total_on_constructed
    (text0 link0 details0 : option string) (kind0 : kind_value) (t : T) :
  T_init text0 link0 details0 kind0 = Ok t ->
  (exists k, kind t = Member k)
  /\ forall (F : Type) (HF : Format F) (self : F) (checking : bool),
       exists r, Format_link self t checking = Ok r
                 /\ (r = None <-> link t = None).
Proof.
  intros Hi. apply T_init_fields in Hi as (Hl & _ & Hk & Hm & _).
  destruct kind0 as [k|]; [| discriminate Hm]. split; [now exists k |].
  intros F HF self checking. unfold Format_link. rewrite Hk.
  destruct (link t) as [l|].
  - destruct k; cbn [bind]; eexists; (split; [reflexivity |]);
      split; discriminate.
  - exists None. now split.
Qed.

Lemma link_total_on_constructed_witness :
  exists r, Format_link FILES_rst (column_T GC) true = Ok r
            /\ (r = None <-> link (column_T GC) = None).
Proof.
  exact (proj2 (link_total_on_constructed (Some "GC")
                  (Some "graph-classification") (Some "Graph classification")
                  (Member index) (column_T GC) eq_refl)
           Rst Rst_Format FILES_rst true).
Defined.

(** The unassigned-suffix branch exists: it is taken on a node whose kind was
    replaced after construction, and [T.__init__] refuses such a kind. *)
Lemma link_unassigned_suffix (F : Type) (HF : Format F) (self : F)
    (text l : string) (details : option string) (checking : bool) :
  Format_link self (mkT text (Some l) details NotMember) checking
  = Raise UnboundLocalError
  /\ T_init (Some text) (Some l) details NotMember = Raise AssertionError.
Proof. split; reflexivity. Qed.

(* ================================================================== *)
(** * Cell normalization *)

(** Induction on values, with the property on every element of a list. *)
Fixpoint value_nested_ind (P : value -> Prop)
    (HNone : P VNone) (HBool : forall b, P (VBool b))
    (HStr : forall s, P (VStr s))
    (HList : forall l, Forall P l -> P (VList l))
    (HT : forall t, P (VT t)) (v : value) : P v :=
  match v with
  | VNone => HNone
  | VBool b => HBool b
  | VStr s => HStr s
  | VList l =>
      HList l
        ((fix each (l : list value) : Forall P l :=
            match l with
            | [] => Forall_nil P
            | x :: l =>
                Forall_cons x
                  (value_nested_ind P HNone HBool HStr HList HT x) (each l)
            end) l)
  | VT t => HT t
  end.

Lemma textify_each_cons (x : value) (l : list value) :
  textify_each (x :: l)
  = (y <- T_textify x ;; l' <- textify_each l ;; Ok (y :: l'))%result.
Proof. reflexivity. Qed.

Lemma textify_list (x : value) (l : list value) :
  T_textify (VList (x :: l))
  = (l' <- textify_each (x :: l) ;; Ok (VList l'))%result.
Proof. reflexivity. Qed.

(** The comprehension returns when every element is normalized, element by
    element and in order; its result is normalized to itself when every
    element's result is. *)
Lemma textify_each_total (l : list value) :
  Forall (fun x => exists y, T_textify x = Ok y /\ T_textify y = Ok y) l ->
  exists l', textify_each l = Ok l'
             /\ Forall2 (fun x y => T_textify x = Ok y) l l'
             /\ textify_each l' = Ok l'.
Proof.
  induction 1 as [|x l (y & Hy & Hyy) _ (l' & Hl & Hf & Hll)].
  - exists []. repeat split; constructor.
  - exists (y :: l'). rewrite !textify_each_cons, Hy, Hl, Hyy, Hll.
    repeat split. now constructor.
Qed.

Lemma textify_stable (inp : value) :
  exists out, T_textify inp = Ok out /\ T_textify out = Ok out.
Proof.
  induction inp as [|b|s|l IH|t] using value_nested_ind.
  - now exists VNone.
  - destruct b; [eexists; split; reflexivity | now exists VNone].
  - destruct s as [|c s]; [now exists VNone | eexists; split; reflexivity].
  - destruct l as [|x l]; [now exists VNone |].
    destruct (textify_each_total _ IH) as (l' & Hl & Hf & Hll).
    exists (VList l'). rewrite textify_list, Hl. split; [reflexivity |].
    inversion Hf as [|x0 y l0 l1 _ _ Hx0 Hl1]; subst.
    now rewrite textify_list, Hll.
  - now exists (VT t).
Qed.

(** C7.  [T.textify], rule by rule in the order the code tests them: a falsy
    input gives [None]; [True] gives the node with the text "yes"; a list
    that is not empty gives the list of its elements' results, in order; a
    node gives itself; a string that is not empty gives the node with that
    text.  It always returns, and its result is normalized to itself. *)
Theorem textify_rules :
  (forall inp, value_truth inp = false -> T_textify inp = Ok VNone)
  /\ T_textify (VBool true)
     = Ok (VT (mkT TRUE_TEXT None None (Member notebook)))
  /\ (forall l, l <> [] ->
        exists l', T_textify (VList l) = Ok (VList l')
                   /\ Forall2 (fun x y => T_textify x = Ok y) l l')
  /\ (forall t, T_textify (VT t) = Ok (VT t))
  /\ (forall s, s <> "" ->
        T_textify (VStr s) = Ok (VT (mkT s None None (Member notebook))))
  /\ (forall inp, exists out,
        T_textify inp = Ok out /\ T_textify out = Ok out).
Proof.
  repeat split.
  - intros inp Hf. destruct inp; cbn in Hf |- *; now rewrite ?Hf.
  - intros l Hl. destruct l as [|x l]; [now elim Hl |].
    destruct (textify_each_total (x :: l)) as (l' & Hl' & Hf & _).
    + apply Forall_forall. intros v _. apply textify_stable.
    + exists l'. now rewrite textify_list, Hl'.
  - intros s Hs. destruct s; [now elim Hs | reflexivity].
  - apply textify_stable.
Qed.

Lemma textify_rules_witness :
  exists l', T_textify (VList [VStr "a"; VNone; VBool true; VT (column_T NC)])
             = Ok (VList l')
             /\ Forall2 (fun x y => T_textify x = Ok y)
                  [VStr "a"; VNone; VBool true; VT (column_T NC)] l'.
Proof.
  apply (proj1 (proj2 (proj2 textify_rules))). discriminate.
Defined.

(* ================================================================== *)
(** * The link extractor *)

Lemma str_truth_append (l suffix : string) :
  suffix <> "" -> str_truth (Some (l ++ suffix)) = true.
Proof.
  intros Hs. cbn. apply negb_true_iff, String.eqb_neq.
  intros He. now apply append_eq_empty in He.
Qed.

Lemma find_links_list {F : Type} `{Format F} (fmt : F) (l : list element) :
  find_links (EList l) fmt = chain (map (fun sub => find_links sub fmt) l).
Proof.
  induction l as [|sub l IH]; [reflexivity |].
  change (find_links (EList (sub :: l)) fmt)
    with (yield_from (find_links sub fmt) (find_links (EList l) fmt)).
  now rewrite IH.
Qed.

Lemma find_links_record {F : Type} `{Format F} (fmt : F)
    (columns : list (column * element)) :
  find_links (EAlgorithm columns) fmt
  = chain (map (fun sub => find_links sub fmt) (map snd columns)).
Proof.
  induction columns as [|[name sub] columns IH]; [reflexivity |].
  change (find_links (EAlgorithm ((name, sub) :: columns)) fmt)
    with (yield_from (find_links sub fmt) (find_links (EAlgorithm columns) fmt)).
  now rewrite IH.
Qed.

(** Generators that all return: their chain yields all they yield, in
    order. *)
Lemma chain_all_return {Y : Type} (gs : list (generator Y)) :
  Forall (fun g => snd g = Ok tt) gs ->
  chain gs = (concat (map fst gs), Ok tt).
Proof.
  induction 1 as [|g gs Hg _ IH]; [reflexivity |].
  change (chain (g :: gs)) with (yield_from g (chain gs)). rewrite IH.
  unfold yield_from. now rewrite Hg.
Qed.

(** The first generator that raises ends the chain. *)
Lemma chain_raises {Y : Type} (gs gs' : list (generator Y))
    (g : generator Y) (e : exn) :
  Forall (fun g => snd g = Ok tt) gs -> snd g = Raise e ->
  chain (gs ++ g :: gs') = ((concat (map fst gs) ++ fst g)%list, Raise e).
Proof.
  unfold generator in *.
  intros Hgs Hg. induction Hgs as [|g0 gs Hg0 _ IH].
  - cbn [app chain fold_right map concat]. unfold yield_from. rewrite Hg.
    destruct g as [ys r]. cbn in Hg |- *. now subst r.
  - change (chain ((g0 :: gs) ++ g :: gs'))
      with (yield_from g0 (chain (gs ++ g :: gs'))).
    rewrite IH. unfold yield_from. rewrite Hg0. cbn [fst snd map concat].
    now rewrite app_assoc.
Qed.

Lemma textify_items_keys (items : list (column * value))
    (cells : list (column * element)) :
  textify_items items = Ok cells -> map fst cells = map fst items.
Proof.
  revert cells; induction items as [|[name v] items IH]; intros cells.
  - now intros [= <-].
  - cbn [textify_items].
    destruct (T_textify v) as [cell|]; [| discriminate].
    destruct (textify_items items) as [rest|]; [| discriminate].
    cbn [bind]. intros [= <-]. cbn. f_equal. now apply IH.
Qed.

Lemma textify_items_total (items : list (column * value)) :
  exists cells, textify_items items = Ok cells.
Proof.
  induction items as [|[name v] items (rest & Hr)]; [now eexists |].
  destruct (textify_stable v) as (cell & Hc & _).
  cbn [textify_items]. rewrite Hc, Hr. now eexists.
Qed.

(** The constructor of records always returns, and the dictionary it builds
    has the declared headings as its keys, in the order of [COLUMNS]. *)
Lemma Algorithm_init_columns
    (algorithm heterogeneous directed weighted temporal features nc
       interpretability_nc lp rl inductive gc : value) :
  exists a,
    Algorithm_init algorithm heterogeneous directed weighted temporal features
      nc interpretability_nc lp rl inductive gc = Ok a
    /\ map fst (columns a) = COLUMNS.
Proof.
  unfold Algorithm_init.
  match goal with
  | |- context [textify_items ?items] =>
      destruct (textify_items_total items) as (cells & Hc);
      pose proof (textify_items_keys _ _ Hc) as Hk; rewrite Hc
  end.
  exists (mkAlgorithm cells). split; [reflexivity | exact Hk].
Qed.


(* ================================================================== *)
(** * Rendering: the first lines *)

Fixpoint element_nested_ind (P : element -> Prop)
    (HNone : P ENone) (HBool : forall b, P (EBool b))
    (HStr : forall s, P (EStr s))
    (HList : forall l, Forall P l -> P (EList l))
    (HT : forall t, P (ET t))
    (HAlgorithm : forall columns, P (EAlgorithm columns)) (e : element) : P e :=
  match e with
  | ENone => HNone
  | EBool b => HBool b
  | EStr s => HStr s
  | EList l =>
      HList l
        ((fix each (l : list element) : Forall P l :=
            match l with
            | [] => Forall_nil P
            | x :: l =>
                Forall_cons x
                  (element_nested_ind P HNone HBool HStr HList HT HAlgorithm x)
                  (each l)
            end) l)
  | ET t => HT t
  | EAlgorithm columns => HAlgorithm columns
  end.

Lemma add_to_last_second (x y : string) (l l' : list string) (data : string) :
  add_to_last (x :: y :: l) data = Ok l' -> exists y' l'', l' = x :: y' :: l''.
Proof.
  change (add_to_last (x :: y :: l) data)
    with (r <- add_to_last (y :: l) data ;; Ok (x :: r))%result.
  destruct (add_to_last (y :: l) data) as [r|e] eqn:Hr; [| discriminate].
  cbn [bind]. intros [= <-].
  destruct l as [|z l]; cbn in Hr.
  - injection Hr as <-. now eexists _, _.
  - destruct (match l with [] => _ | _ :: _ => _ end); [| discriminate].
    injection Hr as <-. now eexists _, _.
Qed.

Lemma keeps_first_add (data : string) (one_line : bool) :
  keeps_first (HtmlBuilder_add data one_line).
Proof.
  intros indent x b b' (Hi & y & l & Hb). unfold HtmlBuilder_add.
  destruct one_line.
  - rewrite Hb.
    destruct (add_to_last (x :: y :: l) data) as [r|e] eqn:Hr; [| discriminate].
    cbn [bind]. intros [= <-].
    destruct (add_to_last_second _ _ _ _ _ Hr) as (y' & l'' & ->).
    split; [exact Hi | now exists y', l''].
  - intros [= <-]. split; [exact Hi |]. cbn [html]. rewrite Hb.
    now eexists _, _.
Qed.

Lemma keeps_first_indent (f : nat -> nat) : keeps_first (set_indent_level f).
Proof. intros indent x b b' Hb [= <-]. exact Hb. Qed.

Lemma keeps_first_pass : keeps_first pass.
Proof. intros indent x b b' Hb [= <-]. exact Hb. Qed.

Lemma keeps_first_and_then (m k : method) :
  keeps_first m -> keeps_first k -> keeps_first (m ;;; k)%method.
Proof.
  intros Hm Hk indent x b b' Hb. unfold and_then.
  destruct (m b) as [b1|e] eqn:H1; [| discriminate]. cbn [bind].
  intros H2. exact (Hk indent x b1 b' (Hm indent x b b1 Hb H1) H2).
Qed.

Lemma keeps_first_for_each {X : Type} (xs : list X) (body : X -> method) :
  (forall x, keeps_first (body x)) -> keeps_first (for_each xs body).
Proof.
  intros Hbody. induction xs as [|x xs IH]; cbn [for_each].
  - apply keeps_first_pass.
  - now apply keeps_first_and_then.
Qed.

(** A method that first computes a value, which may raise. *)
Lemma keeps_first_bind {A : Type} (r : result A) (k : A -> method) :
  (forall a, keeps_first (k a)) ->
  keeps_first (fun b => (a <- r ;; k a b)%result).
Proof.
  intros Hk indent x b b' Hb. destruct r as [a|e]; [| discriminate].
  cbn [bind]. now apply Hk.
Qed.

Lemma element_with_tag (name : string) (body : method) :
  HtmlBuilder_element name [] false body
  = (HtmlBuilder_add ("<" ++ name ++ ">") false ;;; inside_element name body)%method.
Proof. reflexivity. Qed.

Lemma keeps_first_inside (name : string) (body : method) :
  keeps_first body -> keeps_first (inside_element name body).
Proof.
  intros Hbody. unfold inside_element.
  apply keeps_first_and_then; [apply keeps_first_indent |].
  intros indent x b b' Hb.
  apply (keeps_first_and_then body); [exact Hbody | | exact Hb].
  apply keeps_first_and_then; [apply keeps_first_indent |].
  intros indent1 x1 b1 b1'. apply keeps_first_add.
Qed.

Lemma keeps_first_element (name : string) (attrs : list (string * string))
    (only_with_attrs : bool) (body : method) :
  keeps_first body ->
  keeps_first (HtmlBuilder_element name attrs only_with_attrs body).
Proof.
  intros Hbody. unfold HtmlBuilder_element.
  destruct (only_with_attrs && Nat.eqb (List.length attrs) 0); [exact Hbody |].
  apply keeps_first_and_then; [apply keeps_first_add |].
  exact (keeps_first_inside name body Hbody).
Qed.

(** An element opened in a builder of one line makes that line the first of
    several. *)
Lemma element_after_one_line (name : string) (body : method)
    (x : string) (b b' : HtmlBuilder) :
  keeps_first body -> html b = [x] ->
  HtmlBuilder_element name [] false body b = Ok b' ->
  first_of_several (indent_amount b) x b'.
Proof.
  intros Hbody Hb. rewrite element_with_tag. unfold and_then at 1.
  unfold HtmlBuilder_add at 1. cbn [bind].
  apply keeps_first_inside; [exact Hbody |].
  split; [reflexivity |]. cbn [html]. rewrite Hb. now eexists _, _.
Qed.

Lemma keeps_first_render_cell (self : Html) (cell : element) (one_line : bool) :
  keeps_first (Html__render_cell self cell one_line).
Proof.
  revert one_line.
  induction cell as [|b|s|l IH|t|columns] using element_nested_ind;
    intros one_line.
  - apply keeps_first_pass.
  - destruct b; [intros indent x b1 b2 _ Hr; discriminate Hr | apply keeps_first_pass].
  - destruct s; [apply keeps_first_pass | intros indent x b1 b2 _ Hr; discriminate Hr].
  - destruct l as [|c l]; [apply keeps_first_pass |].
    change (Html__render_cell self (EList (c :: l)) one_line)
      with ((fix loop (l : list element) : method :=
               match l with
               | [] => pass
               | contents :: l =>
                   (Html__render_cell self contents false ;;; loop l)%method
               end) (c :: l)).
    induction IH as [|c' l' Hc _ IHl]; [apply keeps_first_pass |].
    apply keeps_first_and_then; [apply Hc | exact IHl].
  - cbn [Html__render_cell element_truth negb].
    apply keeps_first_bind. intros s. apply keeps_first_add.
  - intros indent x b1 b2 _ Hr. discriminate Hr.
Qed.

Lemma join_cons (sep a b : string) (l : list string) :
  join sep (a :: b :: l) = a ++ sep ++ join sep (b :: l).
Proof. reflexivity. Qed.

(** The hypertext table starts with the marker line. *)
Lemma Html_render_marker (__file__ : string) (self : Html)
    (headings : list heading) (algorithms : list Algorithm) (out : string) :
  Html_render __file__ self headings algorithms = Ok out ->
  exists rest,
    out = ("<!-- " ++ AUTOGENERATED_PROMPT __file__ ++ " -->") ++ LF ++ rest.
Proof.
  unfold Html_render.
  set (marker := "<!-- " ++ AUTOGENERATED_PROMPT __file__ ++ " -->").
  unfold and_then at 1. unfold HtmlBuilder_add at 1.
  cbn [HtmlBuilder_init bind html indent_amount indent_level add_count
       indent_truth Nat.mul spaces app].
  change ("" ++ marker) with marker.
  match goal with
  | |- context [HtmlBuilder_element "table" [] false ?body ?b0] =>
      destruct (HtmlBuilder_element "table" [] false body b0) as [b|e] eqn:Hb;
      [apply element_after_one_line with (x := marker) in Hb;
       [| | reflexivity] | discriminate]
  end.
  - cbn [bind]. intros [= <-]. destruct Hb as (Hi & y & l & Hl).
    unfold HtmlBuilder_string. rewrite Hl, Hi. cbn [indent_amount].
    exists (join LF (y :: l)). now rewrite join_cons.
  - apply keeps_first_and_then.
    + apply keeps_first_element, keeps_first_for_each. intros h.
      apply keeps_first_element, keeps_first_bind. intros s.
      apply keeps_first_add.
    + apply keeps_first_for_each. intros a.
      apply keeps_first_element, keeps_first_for_each. intros h.
      apply keeps_first_element, keeps_first_bind. intros c.
      apply keeps_first_render_cell.
Qed.

Lemma appending_extends {X : Type} (xs : list X)
    (body : X -> list string -> result (list string))
    (lines lines' : list string) :
  only_appends body -> appending xs body lines = Ok lines' ->
  exists more, lines' = (lines ++ more)%list.
Proof.
  intros Hbody. revert lines; induction xs as [|x xs IH]; intros lines.
  - intros [= <-]. exists []. now rewrite app_nil_r.
  - cbn [appending].
    destruct (body x lines) as [lines1|e] eqn:H1; [| discriminate].
    cbn [bind]. intros H2.
    destruct (Hbody _ _ _ H1) as (more1 & ->).
    destruct (IH _ H2) as (more2 & ->).
    exists (more1 ++ more2)%list. now rewrite app_assoc.
Qed.

(** The structured-text table starts with the directive and its option, an
    empty line and the first row marker. *)
Lemma Rst_render_directive (self : Rst) (headings : list heading)
    (algorithms : list Algorithm) (out : string) :
  Rst_render self headings algorithms = Ok out ->
  exists rest,
    out = ".. list-table::" ++ LF ++ "   :header-rows: 1" ++ LF ++ LF
          ++ new_row ++ rest.
Proof.
  unfold Rst_render. cbn [app].
  match goal with
  | |- context [appending headings ?body ?lines] =>
      destruct (appending headings body lines) as [lines1|e] eqn:H1;
      [apply appending_extends in H1 as (more1 & ->) | discriminate]
  end.
  - cbn [bind].
    match goal with
    | |- context [appending algorithms ?body ?lines] =>
        destruct (appending algorithms body lines) as [lines2|e] eqn:H2;
        [apply appending_extends in H2 as (more2 & ->) | discriminate]
    end.
    + cbn [bind app]. intros [= <-].
      destruct (more1 ++ more2)%list as [|y l].
      * exists "". reflexivity.
      * exists (LF ++ join LF (y :: l)). reflexivity.
    + intros algorithm lines lines'. intros H3.
      apply appending_extends in H3 as (more & ->).
      * exists (new_row :: more). now rewrite <- app_assoc.
      * intros heading lines0 lines0'.
        destruct (getitem algorithm heading) as [cell|]; [| discriminate].
        cbn [bind].
        destruct (Rst__render_cell self cell) as [rst|]; [| discriminate].
        cbn [bind]. destruct (negb (rst =? "")); intros [= <-]; now eexists.
  - intros heading lines lines'.
    destruct (Rst__render_t self (heading_T heading)) as [rst|]; [| discriminate].
    cbn [bind]. intros [= <-]. now eexists.
Qed.

(** A line feed is found in [a ++ b] where it is found in [b], when [a] has
    none. *)
Lemma partition_LF_append (a b : string) :
  partition LF a = None ->
  partition LF (a ++ b)
  = match partition LF b with
    | Some (before, after) => Some (a ++ before, after)
    | None => None
    end.
Proof.
  induction a as [|c a IH]; intros Ha.
  - cbn [append]. now destruct (partition LF b) as [[x y]|].
  - change (String c a ++ b) with (String c (a ++ b)).
    destruct (prefix LF (String c a)) eqn:Hp.
    + rewrite (partition_here _ _ Hp) in Ha. discriminate Ha.
    + rewrite (partition_later _ _ _ Hp) in Ha.
      assert (Hp' : prefix LF (String c (a ++ b)) = false).
      { unfold LF in Hp |- *. rewrite prefix_cons, prefix_empty in Hp.
        now rewrite prefix_cons, prefix_empty. }
      rewrite (partition_later _ _ _ Hp'), IH.
      * now destruct (partition LF b) as [[x y]|].
      * now destruct (partition LF a) as [[x y]|].
Qed.

Lemma first_line_append (a rest : string) :
  contains a LF = false -> first_line (a ++ LF ++ rest) = a.
Proof.
  unfold contains, first_line. intros Ha.
  destruct (partition LF a) as [[x y]|] eqn:Hp; [discriminate |].
  rewrite (partition_LF_append _ _ Hp).
  rewrite (partition_here LF (LF ++ rest)) by apply prefix_append.
  apply append_empty_r.
Qed.

Lemma contains_LF_append (a b : string) :
  contains a LF = false -> contains b LF = false ->
  contains (a ++ b) LF = false.
Proof.
  unfold contains. intros Ha Hb.
  destruct (partition LF a) as [[x y]|] eqn:Hp; [discriminate |].
  rewrite (partition_LF_append _ _ Hp).
  now destruct (partition LF b) as [[x y]|].
Qed.


(* ================================================================== *)
(** * Rendering and extraction return on the catalog's shapes *)

Lemma link_returns {F : Type} `{Format F} (self : F) (t : T) (checking : bool) :
  linkable t -> exists r, Format_link self t checking = Ok r.
Proof.
  unfold Format_link. intros [Hl|[k Hk]].
  - rewrite Hl. now eexists.
  - rewrite Hk. destruct (link t); destruct k; now eexists.
Qed.

Lemma T_init_linkable (text0 link0 details0 : option string)
    (kind0 : kind_value) (t : T) :
  T_init text0 link0 details0 kind0 = Ok t -> linkable t.
Proof.
  intros Hi. apply T_init_fields in Hi as (_ & _ & Hk & Hm & _).
  right. destruct kind0 as [k|]; [now exists k | discriminate Hm].
Qed.

(** ** Normalization gives normalized cells *)

Lemma textify_each_normalized (l l' : list value) :
  Forall (fun x => forall out, declared_input x ->
                   T_textify x = Ok out -> normalized (of_value out)) l ->
  Forall declared_input l ->
  textify_each l = Ok l' -> Forall normalized (map of_value l').
Proof.
  intros IH. revert l'. induction IH as [|x l Hx _ IHl]; intros l' Hd.
  - intros [= <-]. constructor.
  - inversion Hd as [|x0 l0 Hdx Hdl]; subst.
    rewrite textify_each_cons.
    destruct (T_textify x) as [y|] eqn:Hy; [| discriminate].
    destruct (textify_each l) as [r|] eqn:Hr; [| discriminate].
    cbn [bind]. intros [= <-]. cbn [map].
    constructor; [now apply Hx | now apply IHl].
Qed.

Lemma textify_normalized (inp out : value) :
  declared_input inp -> T_textify inp = Ok out -> normalized (of_value out).
Proof.
  revert out.
  induction inp as [|b|s|l IH|t] using value_nested_ind; intros out Hd.
  - intros [= <-]. constructor.
  - destruct b; intros [= <-]; constructor. right. now exists notebook.
  - destruct s; intros [= <-]; constructor. right. now exists notebook.
  - destruct l as [|x l]; [intros [= <-]; constructor |].
    rewrite textify_list.
    destruct (textify_each (x :: l)) as [l'|] eqn:Hl; [| discriminate].
    cbn [bind]. intros [= <-]. cbn [of_value]. constructor.
    inversion Hd as [| | | |l0 Hdl]; subst.
    exact (textify_each_normalized _ _ IH Hdl Hl).
  - intros [= <-]. inversion Hd; subst. now constructor.
Qed.

Lemma textify_items_normalized (items : list (column * value))
    (cells : list (column * element)) :
  Forall (fun item => declared_input (snd item)) items ->
  textify_items items = Ok cells ->
  Forall (fun item => normalized (snd item)) cells.
Proof.
  intros Hd. revert cells.
  induction Hd as [|[name v] items Hv _ IH]; intros cells.
  - intros [= <-]. constructor.
  - cbn [textify_items].
    destruct (T_textify v) as [cell|] eqn:Hc; [| discriminate].
    destruct (textify_items items) as [rest|]; [| discriminate].
    cbn [bind]. intros [= <-].
    constructor; [exact (textify_normalized _ _ Hv Hc) | now apply IH].
Qed.

(** The constructor, on declared inputs, builds a complete record. *)
Lemma Algorithm_init_complete
    (algorithm heterogeneous directed weighted temporal features nc
       interpretability_nc lp rl inductive gc : value) :
  Forall declared_input
    [algorithm; heterogeneous; directed; weighted; temporal; features; nc;
     lp; rl; inductive; gc] ->
  exists a,
    Algorithm_init algorithm heterogeneous directed weighted temporal features
      nc interpretability_nc lp rl inductive gc = Ok a
    /\ complete a.
Proof.
  intros Hd.
  destruct (Algorithm_init_columns algorithm heterogeneous directed weighted
              temporal features nc interpretability_nc lp rl inductive gc)
    as (a & Ha & Hk).
  exists a. split; [exact Ha |]. split; [exact Hk |].
  unfold Algorithm_init in Ha.
  match type of Ha with
  | context [textify_items ?items] =>
      destruct (textify_items items) as [cells|] eqn:Hc; [| discriminate Ha];
      apply textify_items_normalized in Hc
  end.
  - cbn [bind] in Ha. injection Ha as <-. exact Hc.
  - repeat match goal with
           | H : Forall _ (_ :: _) |- _ =>
               let Hx := fresh "Hx" in
               let Hl := fresh "Hl" in
               inversion H as [|? ? Hx Hl]; subst; clear H
           end.
    repeat constructor; assumption.
Qed.

Lemma column_eqb_eq (a b : column) : column_eqb a b = true <-> a = b.
Proof. destruct a, b; cbn; split; (reflexivity || discriminate). Qed.

Lemma dict_get_present (d : list (column * element)) (key : column) :
  In key (map fst d) ->
  exists v, dict_get d key = Ok v /\ In (key, v) d.
Proof.
  induction d as [|[k v] d IH]; intros Hin; [destruct Hin |].
  cbn [dict_get]. destruct (column_eqb k key) eqn:Hk.
  - apply column_eqb_eq in Hk. subst k. exists v. split; [reflexivity | now left].
  - destruct Hin as [He|Hin].
    + cbn in He. subst k.
      assert (Ht : column_eqb key key = true) by now apply column_eqb_eq.
      rewrite Ht in Hk. discriminate Hk.
    + destruct (IH Hin) as (v' & Hg & Hv). exists v'. split; [exact Hg | now right].
Qed.

Lemma every_column (c : column) : In c COLUMNS.
Proof. destruct c; cbn; tauto. Qed.

Lemma getitem_complete (a : Algorithm) (c : column) :
  complete a ->
  exists cell, getitem a (Declared c) = Ok cell /\ normalized cell.
Proof.
  intros [Hk Hn]. cbn [getitem].
  destruct (dict_get_present (columns a) c) as (v & Hg & Hin).
  - rewrite Hk. apply every_column.
  - exists v. split; [exact Hg |].
    rewrite Forall_forall in Hn. exact (Hn _ Hin).
Qed.

(** ** The builder's methods return *)

Lemma add_to_last_returns (l : list string) (data : string) :
  l <> [] -> exists l', add_to_last l data = Ok l' /\ l' <> [].
Proof.
  induction l as [|x l IH]; intros Hl; [now elim Hl |].
  destruct l as [|y l].
  - now exists [x ++ data].
  - destruct IH as (l' & Hl' & _); [discriminate |].
    change (add_to_last (x :: y :: l) data)
      with (r <- add_to_last (y :: l) data ;; Ok (x :: r))%result.
    rewrite Hl'. now exists (x :: l').
Qed.

Lemma starts_add (data : string) : starts (HtmlBuilder_add data false).
Proof.
  intros b. unfold HtmlBuilder_add. eexists. split; [reflexivity |].
  cbn [html]. now destruct (html b).
Qed.

Lemma starts_runs (m : method) : starts m -> runs m.
Proof. intros Hm b _. apply Hm. Qed.

Lemma runs_add (data : string) (one_line : bool) :
  runs (HtmlBuilder_add data one_line).
Proof.
  destruct one_line; [| apply starts_runs, starts_add].
  intros b Hb. unfold HtmlBuilder_add.
  destruct (add_to_last_returns _ data Hb) as (l' & -> & Hl').
  eexists. split; [reflexivity | exact Hl'].
Qed.

Lemma runs_indent (f : nat -> nat) : runs (set_indent_level f).
Proof. intros b Hb. eexists. split; [reflexivity | exact Hb]. Qed.

Lemma runs_pass : runs pass.
Proof. intros b Hb. now exists b. Qed.

Lemma runs_and_then (m k : method) : runs m -> runs k -> runs (m ;;; k)%method.
Proof.
  intros Hm Hk b Hb. unfold and_then.
  destruct (Hm b Hb) as (b1 & -> & Hb1). exact (Hk b1 Hb1).
Qed.

Lemma starts_and_then (m k : method) :
  starts m -> runs k -> starts (m ;;; k)%method.
Proof.
  intros Hm Hk b. unfold and_then.
  destruct (Hm b) as (b1 & -> & Hb1). exact (Hk b1 Hb1).
Qed.

Lemma runs_for_each {X : Type} (xs : list X) (body : X -> method) :
  Forall (fun x => runs (body x)) xs -> runs (for_each xs body).
Proof.
  induction 1 as [|x xs Hx _ IH]; cbn [for_each].
  - apply runs_pass.
  - now apply runs_and_then.
Qed.

Lemma runs_bind {A : Type} (r : result A) (k : A -> method) (a : A) :
  r = Ok a -> runs (k a) -> runs (fun b => (a <- r ;; k a b)%result).
Proof. intros -> Hk. exact Hk. Qed.

Lemma runs_inside (name : string) (body : method) :
  runs body -> runs (inside_element name body).
Proof.
  intros Hbody. unfold inside_element.
  apply runs_and_then; [apply runs_indent |].
  intros b Hb.
  apply (runs_and_then body); [exact Hbody | | exact Hb].
  apply runs_and_then; [apply runs_indent |].
  intros b1. apply runs_add.
Qed.

Lemma element_cases (name : string) (attrs : list (string * string))
    (only_with_attrs : bool) (body : method) :
  HtmlBuilder_element name attrs only_with_attrs body = body
  \/ exists tag,
       HtmlBuilder_element name attrs only_with_attrs body
       = (HtmlBuilder_add tag false ;;; inside_element name body)%method.
Proof.
  unfold HtmlBuilder_element.
  destruct (only_with_attrs && Nat.eqb (List.length attrs) 0);
    [now left | right; now eexists].
Qed.

Lemma runs_element (name : string) (attrs : list (string * string))
    (only_with_attrs : bool) (body : method) :
  runs body -> runs (HtmlBuilder_element name attrs only_with_attrs body).
Proof.
  intros Hbody.
  destruct (element_cases name attrs only_with_attrs body) as [->|(tag & ->)];
    [exact Hbody |].
  apply runs_and_then; [apply runs_add | now apply runs_inside].
Qed.

Lemma starts_element (name : string) (attrs : list (string * string))
    (only_with_attrs : bool) (body : method) :
  starts body -> starts (HtmlBuilder_element name attrs only_with_attrs body).
Proof.
  intros Hbody.
  destruct (element_cases name attrs only_with_attrs body) as [->|(tag & ->)];
    [exact Hbody |].
  apply starts_and_then; [apply starts_add |].
  now apply runs_inside, starts_runs.
Qed.

(** ** The hypertext renderer returns *)

Lemma Html__render_t_returns (self : Html) (t : T) :
  linkable t -> exists s, Html__render_t self t = Ok s.
Proof.
  intros Ht. unfold Html__render_t.
  destruct (link_returns self t false Ht) as (r & ->). cbn [bind].
  match goal with
  | |- context [HtmlBuilder_element "span" ?attrs true ?body ?b0] =>
      assert (Hs : starts (HtmlBuilder_element "span" attrs true body))
        by apply starts_element, starts_element, starts_add;
      destruct (Hs b0) as (b' & -> & _)
  end.
  now eexists.
Qed.

Lemma runs_render_cell (self : Html) (cell : element) (one_line : bool) :
  normalized cell -> runs (Html__render_cell self cell one_line).
Proof.
  revert one_line.
  induction cell as [|b|s|l IH|t|columns] using element_nested_ind;
    intros one_line Hn; try (now inversion Hn).
  - apply runs_pass.
  - destruct l as [|c l]; [apply runs_pass |].
    inversion Hn as [| |l0 Hl]; subst. clear Hn.
    change (Html__render_cell self (EList (c :: l)) one_line)
      with ((fix loop (l : list element) : method :=
               match l with
               | [] => pass
               | contents :: l =>
                   (Html__render_cell self contents false ;;; loop l)%method
               end) (c :: l)).
    revert IH Hl. generalize (c :: l). intros cells IH.
    induction IH as [|c' l' Hc _ IHl]; intros Hl; [apply runs_pass |].
    inversion Hl as [|c0 l0 Hc' Hl']; subst.
    apply runs_and_then; [now apply Hc | now apply IHl].
  - inversion Hn as [|t0 Ht|]; subst.
    destruct (Html__render_t_returns self t Ht) as (s & Hs).
    cbn [Html__render_cell element_truth negb].
    apply (runs_bind _ _ s Hs), runs_add.
Qed.

Lemma column_linkable (c : column) : linkable (column_T c).
Proof. right. destruct c; cbn; now eexists. Qed.

(** The hypertext table of declared headings and complete records is
    rendered. *)
Lemma Html_render_returns (__file__ : string) (self : Html)
    (headings : list column) (algorithms : list Algorithm) :
  Forall complete algorithms ->
  exists out,
    Html_render __file__ self (map Declared headings) algorithms = Ok out.
Proof.
  intros Ha. unfold Html_render.
  match goal with
  | |- context [(?m ;;; ?k)%method (HtmlBuilder_init ?i)] =>
      assert (Hs : starts (m ;;; k)%method);
      [apply starts_and_then; [apply starts_add |]
      | destruct (Hs (HtmlBuilder_init i)) as (b' & -> & _); now eexists]
  end.
  - apply runs_element, runs_and_then.
    + apply runs_element, runs_for_each, Forall_forall. intros h Hh.
      apply in_map_iff in Hh as (c & <- & _).
      apply runs_element.
      destruct (Html__render_t_returns self (column_T c) (column_linkable c))
        as (s & Hs).
      apply (runs_bind _ _ s Hs), runs_add.
    + apply runs_for_each. eapply Forall_impl; [| exact Ha].
      intros a Hc. apply runs_element, runs_for_each, Forall_forall.
      intros h Hh. apply in_map_iff in Hh as (c & <- & _).
      apply runs_element.
      destruct (getitem_complete a c Hc) as (cell & Hg & Hn).
      apply (runs_bind _ _ cell Hg), runs_render_cell, Hn.
Qed.

(** ** The structured-text renderer returns *)

Lemma Rst__render_t_returns (self : Rst) (t : T) :
  linkable t -> exists s, Rst__render_t self t = Ok s.
Proof.
  intros Ht. unfold Rst__render_t.
  destruct (link_returns self t false Ht) as (r & ->). cbn [bind].
  destruct (str_truth r); now eexists.
Qed.

Lemma Rst__render_cell_returns (self : Rst) (cell : element) :
  normalized cell -> exists s, Rst__render_cell self cell = Ok s.
Proof.
  induction cell as [|b|s|l IH|t|columns] using element_nested_ind;
    intros Hn; try (now inversion Hn).
  - now exists "".
  - destruct l as [|c l]; [now exists "" |].
    inversion Hn as [| |l0 Hl]; subst. clear Hn.
    assert (Hparts : forall cells,
              Forall (fun e => normalized e ->
                               exists s, Rst__render_cell self e = Ok s) cells ->
              Forall normalized cells ->
              exists parts,
                (fix each (l : list element) : result (list string) :=
                   match l with
                   | [] => Ok []
                   | contents :: l =>
                       (s <- Rst__render_cell self contents ;;
                        rest <- each l ;;
                        Ok (s :: rest))%result
                   end) cells = Ok parts).
    { intros cells Hcells.
      induction Hcells as [|c' l' Hc _ IHl]; intros Hl';
        [exists []; reflexivity |].
      inversion Hl' as [|c0 l0 Hc' Hl'']; subst.
      destruct (Hc Hc') as (s & Hs). destruct (IHl Hl'') as (rest & Hrest).
      exists (s :: rest). now rewrite Hs, Hrest. }
    destruct (Hparts (c :: l) IH Hl) as (parts & Hparts').
    exists (join ", " parts).
    transitivity (parts <- Ok parts ;; Ok (join ", " parts))%result;
      [| reflexivity].
    rewrite <- Hparts'. reflexivity.
  - inversion Hn as [|t0 Ht|]; subst. now apply Rst__render_t_returns.
Qed.

Lemma appending_returns {X : Type} (xs : list X)
    (body : X -> list string -> result (list string)) :
  Forall (fun x => forall lines, exists lines', body x lines = Ok lines') xs ->
  forall lines, exists lines', appending xs body lines = Ok lines'.
Proof.
  induction 1 as [|x xs Hx _ IH]; intros lines; cbn [appending].
  - now eexists.
  - destruct (Hx lines) as (lines1 & ->). apply IH.
Qed.

(** The structured-text table of declared headings and complete records is
    rendered. *)
Lemma Rst_render_returns (self : Rst) (headings : list column)
    (algorithms : list Algorithm) :
  Forall complete algorithms ->
  exists out, Rst_render self (map Declared headings) algorithms = Ok out.
Proof.
  intros Ha. unfold Rst_render.
  match goal with
  | |- context [appending (map Declared headings) ?body ?lines0] =>
      assert (Hhead : forall lines, exists lines',
                 appending (map Declared headings) body lines = Ok lines');
      [apply appending_returns | destruct (Hhead lines0) as (lines1 & ->)]
  end.
  - apply Forall_forall. intros h Hh lines.
    apply in_map_iff in Hh as (c & <- & _).
    destruct (Rst__render_t_returns self (column_T c) (column_linkable c))
      as (s & Hs).
    cbn [heading_T]. rewrite Hs. now eexists.
  - cbn [bind].
    match goal with
    | |- context [appending algorithms ?body ?lines0] =>
        assert (Hr : forall lines, exists lines',
                   appending algorithms body lines = Ok lines');
        [apply appending_returns | destruct (Hr lines0) as (lines2 & ->)]
    end.
    + eapply Forall_impl; [| exact Ha]. intros a Hc lines.
      apply appending_returns, Forall_forall. intros h Hh lines0.
      apply in_map_iff in Hh as (c & <- & _).
      destruct (getitem_complete a c Hc) as (cell & -> & Hn). cbn [bind].
      destruct (Rst__render_cell_returns self cell Hn) as (s & ->).
      cbn [bind]. destruct (negb (s =? "")); now eexists.
    + now eexists.
Qed.

(** ** The link extractor returns on normalized cells *)

Lemma find_links_normalized {F : Type} `{Format F} (fmt : F) (cell : element) :
  normalized cell -> snd (find_links cell fmt) = Ok tt.
Proof.
  induction cell as [|b|s|l IH|t|columns] using element_nested_ind;
    intros Hn; try (now inversion Hn).
  - inversion Hn as [| |l0 Hl]; subst. clear Hn.
    rewrite find_links_list, chain_all_return; [reflexivity |].
    revert Hl. induction IH as [|c l Hc _ IHl]; intros Hl; [constructor |].
    inversion Hl as [|c0 l0 Hc' Hl']; subst.
    constructor; [now apply Hc | now apply IHl].
  - inversion Hn as [|t0 Ht|]; subst. cbn [find_links].
    destruct (link_returns fmt t true Ht) as (r & ->).
    now destruct (str_truth r).
Qed.

(** On a complete record the extractor yields what the cells yield, heading
    by heading, and returns. *)
Lemma find_links_complete {F : Type} `{Format F} (fmt : F) (a : Algorithm) :
  complete a ->
  find_links (EAlgorithm (columns a)) fmt
  = (concat (map (fun item => fst (find_links (snd item) fmt)) (columns a)),
     Ok tt).
Proof.
  intros [_ Hn]. rewrite find_links_record, chain_all_return.
  - now rewrite !map_map.
  - rewrite map_map. apply Forall_map.
    eapply Forall_impl; [| exact Hn].
    intros [c cell] Hc. now apply find_links_normalized.
Qed.

(* ================================================================== *)
(** * Rendering and extraction: the properties *)

(** C5, as the code has it.  Whatever the headings and the records, a
    hypertext table that is rendered starts with the marker line (it is the
    first line of the output when the path of the script has no line feed);
    a structured-text table that is rendered has no marker line: it starts
    with the [list-table] directive.  Both tables are rendered when the
    headings are declared ones and the records are complete. *)
Theorem render_first_lines :
  (forall __file__ (self : Html) headings algorithms out,
     Html_render __file__ self headings algorithms = Ok out ->
     (exists rest,
        out = ("<!-- " ++ AUTOGENERATED_PROMPT __file__ ++ " -->") ++ LF ++ rest)
     /\ (contains __file__ LF = false ->
         first_line out = "<!-- " ++ AUTOGENERATED_PROMPT __file__ ++ " -->"))
  /\ (forall (self : Rst) headings algorithms out,
        Rst_render self headings algorithms = Ok out ->
        (exists rest,
           out = ".. list-table::" ++ LF ++ "   :header-rows: 1" ++ LF ++ LF
                 ++ new_row ++ rest)
        /\ first_line out = ".. list-table::")
  /\ (forall __file__ (html : Html) (rst : Rst) headings algorithms,
        Forall complete algorithms ->
        (exists out,
           Html_render __file__ html (map Declared headings) algorithms = Ok out)
        /\ (exists out,
              Rst_render rst (map Declared headings) algorithms = Ok out)).
Proof.
  split; [| split].
  - intros __file__ self headings algorithms out Hr.
    destruct (Html_render_marker _ _ _ _ _ Hr) as (rest & ->).
    split; [now exists rest |]. intros Hf.
    apply first_line_append. unfold AUTOGENERATED_PROMPT.
    repeat (apply contains_LF_append; try assumption; try reflexivity).
  - intros self headings algorithms out Hr.
    destruct (Rst_render_directive _ _ _ _ Hr) as (rest & ->).
    split; [now exists rest |].
    now apply (first_line_append ".. list-table::").
  - intros __file__ html rst headings algorithms Ha. split.
    + now apply Html_render_returns.
    + now apply Rst_render_returns.
Qed.

Lemma render_first_lines_witness :
  (exists rest,
     Html_render "scripts/demo_indexing.py" FILES_html (map Declared COLUMNS) []
     = Ok (("<!-- " ++ AUTOGENERATED_PROMPT "scripts/demo_indexing.py" ++ " -->")
             ++ LF ++ rest))
  /\ first_line
       (".. list-table::" ++ LF ++ "   :header-rows: 1" ++ LF ++ LF
        ++ "   *" ++ LF ++ "     - Algorithm")
     = ".. list-table::".
Proof.
  split.
  - destruct (Html_render "scripts/demo_indexing.py" FILES_html
                (map Declared COLUMNS) []) as [out|e] eqn:Hr;
      [| vm_compute in Hr; discriminate Hr].
    destruct (proj1 (proj1 render_first_lines _ _ _ _ _ Hr)) as (rest & ->).
    now exists rest.
  - exact (proj2 (proj1 (proj2 render_first_lines) FILES_rst
                    [Declared ALGORITHM] [] _ eq_refl)).
Defined.

(** C5, as stated, fails for the structured-text format: the table of one
    heading and one record starts with the directive, and the word
    "autogenerated" is nowhere in it; the hypertext table of the same catalog
    has the marker. *)
Lemma rst_render_without_marker :
  let gcn := mkAlgorithm
               (map (fun c => (c, match c with
                                  | ALGORITHM => ET (mkT "GCN" None None (Member notebook))
                                  | _ => ENone
                                  end)) COLUMNS) in
  let table :=
    ".. list-table::" ++ LF ++ "   :header-rows: 1" ++ LF ++ LF
    ++ "   *" ++ LF ++ "     - Algorithm" ++ LF
    ++ "   *" ++ LF ++ "     - GCN" in
  Algorithm_init (VStr "GCN") VNone VNone VNone VNone VNone VNone VNone VNone
    VNone VNone VNone = Ok gcn
  /\ Rst_render FILES_rst [Declared ALGORITHM] [gcn] = Ok table
  /\ first_line table = ".. list-table::"
  /\ contains table "autogenerated" = false
  /\ Html_render "scripts/demo_indexing.py" FILES_html [Declared ALGORITHM] [gcn]
     = Ok ("<!-- autogenerated by scripts/demo_indexing.py, edit that file instead of this location -->"
           ++ LF ++ "<table>" ++ LF
           ++ "  <tr>" ++ LF
           ++ "    <th>Algorithm</th>" ++ LF
           ++ "  </tr>" ++ LF
           ++ "  <tr>" ++ LF
           ++ "    <td>GCN</td>" ++ LF
           ++ "  </tr>" ++ LF
           ++ "</table>").
Proof. cbv zeta. repeat split; vm_compute; reflexivity. Qed.

(** C8.  The link extractor, shape by shape, for a format whose checking
    suffixes are not empty (those of both formats are): [None] yields
    nothing; a node without a link yields nothing and a node with a link
    yields the one pair of the link and its checking resolution; a list is
    the chain of its elements; a record is the chain of the values of its
    dictionary, and a record constructed from declared inputs has the
    headings of [COLUMNS] as keys, in that order, and yields the
    concatenation of what its cells yield; a boolean or a string raises
    [ValueError] before any yield.  A chain of generators that return yields
    their concatenation, and a chain ends at the first generator that
    raises. *)
Theorem find_links_shapes (F : Type) (HF : Format F) (fmt : F) :
  index_suffix fmt true <> "" -> notebook_suffix fmt true <> "" ->
  find_links ENone fmt = ([], Ok tt)
  /\ (forall t, link t = None -> find_links (ET t) fmt = ([], Ok tt))
  /\ (forall t written k, link t = Some written -> kind t = Member k ->
        let suffix := match k with
                      | index => index_suffix fmt true
                      | notebook => notebook_suffix fmt true
                      end in
        Format_link fmt t true = Ok (Some (written ++ suffix))
        /\ find_links (ET t) fmt
           = ([(Some written, Some (written ++ suffix))], Ok tt))
  /\ (forall l, find_links (EList l) fmt
                = chain (map (fun sub => find_links sub fmt) l))
  /\ (forall columns, find_links (EAlgorithm columns) fmt
                      = chain (map (fun sub => find_links sub fmt)
                                 (map snd columns)))
  /\ (forall algorithm heterogeneous directed weighted temporal features nc
        interpretability_nc lp rl inductive gc,
        Forall declared_input
          [algorithm; heterogeneous; directed; weighted; temporal; features;
           nc; lp; rl; inductive; gc] ->
        exists a,
          Algorithm_init algorithm heterogeneous directed weighted temporal
            features nc interpretability_nc lp rl inductive gc = Ok a
          /\ map fst (columns a) = COLUMNS
          /\ find_links (EAlgorithm (columns a)) fmt
             = (concat (map (fun item => fst (find_links (snd item) fmt))
                          (columns a)),
                Ok tt))
  /\ (forall b, find_links (EBool b) fmt = ([], Raise ValueError))
  /\ (forall s, find_links (EStr s) fmt = ([], Raise ValueError))
  /\ (forall gs : list (generator (option string * option string)),
        Forall (fun g => snd g = Ok tt) gs ->
        chain gs = (concat (map fst gs), Ok tt))
  /\ (forall (gs gs' : list (generator (option string * option string))) g e,
        Forall (fun g => snd g = Ok tt) gs -> snd g = Raise e ->
        chain (gs ++ g :: gs') = ((concat (map fst gs) ++ fst g)%list, Raise e)).
Proof.
  intros Hi Hn.
  split; [reflexivity |].
  split.
  { intros t Hl. cbn [find_links]. unfold Format_link. now rewrite Hl. }
  split.
  { intros t written k Hl Hk suffix.
    assert (Hr : Format_link fmt t true = Ok (Some (written ++ suffix)))
      by (unfold Format_link; rewrite Hl, Hk; now destruct k).
    split; [exact Hr |].
    cbn [find_links]. rewrite Hr, str_truth_append, Hl; [reflexivity |].
    now destruct k. }
  split; [apply find_links_list |].
  split; [apply find_links_record |].
  split.
  { intros algorithm heterogeneous directed weighted temporal features nc
      interpretability_nc lp rl inductive gc Hd.
    destruct (Algorithm_init_complete algorithm heterogeneous directed weighted
                temporal features nc interpretability_nc lp rl inductive gc Hd)
      as (a & Ha & Hc).
    exists a. split; [exact Ha |]. split; [exact (proj1 Hc) |].
    now apply find_links_complete. }
  split; [reflexivity |].
  split; [reflexivity |].
  split; [apply chain_all_return | apply chain_raises].
Qed.

(** Both formats have checking suffixes that are not empty. *)
Lemma checking_suffixes (html : Html) (rst : Rst) :
  (index_suffix html true <> "" /\ notebook_suffix html true <> "")
  /\ (index_suffix rst true <> "" /\ notebook_suffix rst true <> "").
Proof. repeat split; discriminate. Qed.

Lemma find_links_shapes_witness :
  find_links (EList [ET (column_T ALGORITHM); ET (column_T NC)]) FILES_rst
  = chain [find_links (ET (column_T ALGORITHM)) FILES_rst;
           find_links (ET (column_T NC)) FILES_rst]
  /\ find_links (ET (column_T NC)) FILES_rst
     = ([(Some "node-classification", Some "node-classification/index.rst")],
        Ok tt).
Proof.
  pose proof (find_links_shapes Rst Rst_Format FILES_rst) as Hs.
  destruct Hs as (_ & _ & Hnode & Hlist & _); [discriminate | discriminate |].
  split.
  - exact (Hlist [ET (column_T ALGORITHM); ET (column_T NC)]).
  - exact (proj2 (Hnode (column_T NC) "node-classification" index
                    eq_refl eq_refl)).
Defined.

(* ================================================================== *)
(** * The repository's catalog *)

(** Every call in [ALGORITHMS] returns, and the records are complete. *)
Lemma ALGORITHMS_complete :
  exists catalog,
    ALGORITHMS = Ok catalog
    /\ List.length catalog = 19
    /\ Forall complete catalog.
Proof.
  eexists. split; [vm_compute; reflexivity |]. split; [reflexivity |].
  repeat (apply Forall_cons || apply Forall_nil);
    (split; [reflexivity |]);
    repeat first
      [ apply Forall_nil
      | apply Forall_cons
      | apply normalized_none
      | apply normalized_list
      | apply normalized_node; right; eexists; reflexivity ].
Qed.

(** Both tables of the catalog meet the separator of their file only at the
    end, so the patcher is idempotent on them. *)
Lemma catalog_tables_meet_separator_at_end :
  exists catalog rst_table html_table,
    ALGORITHMS = Ok catalog
    /\ Rst_render FILES_rst (map Declared COLUMNS) catalog = Ok rst_table
    /\ separator_only_at_end (separator FILES_rst) rst_table
    /\ Html_render "scripts/demo_indexing.py" FILES_html (map Declared COLUMNS)
         catalog = Ok html_table
    /\ separator_only_at_end (separator FILES_html) html_table.
Proof.
  eexists _, _, _.
  split; [vm_compute; reflexivity |].
  split; [vm_compute; reflexivity |].
  split; [vm_compute; reflexivity |].
  split; vm_compute; reflexivity.
Qed.

(** The links of the catalog, as the extractor yields them for the
    structured-text format: every record returns, and no link is absolute or
    begins with "http". *)
Lemma catalog_links_relative :
  exists catalog links,
    ALGORITHMS = Ok catalog
    /\ chain [find_links (EList (map ET (map column_T COLUMNS))) FILES_rst;
              find_links (EList (map (fun a => EAlgorithm (columns a)) catalog))
                FILES_rst]
       = (links, Ok tt)
    /\ List.length links = 40
    /\ forallb (fun written_rendered =>
                  match snd written_rendered with
                  | Some rendered =>
                      negb (isabs rendered)
                      && negb (startswith (lower rendered) "http")
                  | None => true
                  end) links = true.
Proof.
  eexists _, _.
  split; [vm_compute; reflexivity |].
  split; [vm_compute; reflexivity |].
  split; vm_compute; reflexivity.
Qed.

(* ================================================================== *)
(** * More on splitting and patching *)

Lemma join_cons_nonempty (sep a : string) (l : list string) :
  l <> [] -> join sep (a :: l) = a ++ sep ++ join sep l.
Proof. destruct l; [now intros H; elim H | reflexivity]. Qed.

Lemma join_split_parts (fuel : nat) (sep s : string) :
  join sep (split_parts fuel sep s) = s.
Proof.
  revert s; induction fuel as [|fuel IH]; intros s; cbn [split_parts];
    destruct (partition sep s) as [[b a]|] eqn:Hp; try reflexivity.
  rewrite join_cons_nonempty by apply split_parts_nonempty.
  rewrite IH. symmetry. exact (partition_sound _ _ _ _ Hp).
Qed.

(** X1.  Joining the parts of a split with the separator gives the string
    that was split back, whatever the number of parts. *)
Theorem split_join_round_trip (s sep : string) (parts : list string) :
  split s sep = Ok parts -> join sep parts = s.
Proof.
  unfold split. destruct (sep =? ""); [discriminate |].
  intros [= <-]. apply join_split_parts.
Qed.

Lemma split_join_round_trip_witness :
  join "--" ["a"; ""; "b-c"] = "a----b-c".
Proof.
  exact (split_join_round_trip "a----b-c" "--" ["a"; ""; "b-c"] eq_refl).
Defined.

Lemma append_inv_head (a b c : string) : a ++ b = a ++ c -> b = c.
Proof.
  induction a as [|x a IH]; cbn; [trivial |]. intros [= H]. now apply IH.
Qed.

Lemma append_inv_tail (a b c : string) : a ++ c = b ++ c -> a = b.
Proof.
  revert b; induction a as [|x a IH]; intros [|y b] H; cbn in H.
  - reflexivity.
  - exfalso. apply (f_equal String.length) in H. cbn in H.
    rewrite length_append in H. lia.
  - exfalso. apply (f_equal String.length) in H. cbn in H.
    rewrite length_append in H. lia.
  - injection H as -> H. f_equal. now apply IH.
Qed.

(** What is before the leftmost occurrence does not contain the separator. *)
Lemma partition_before_free (sep s before after : string) :
  sep <> "" -> partition sep s = Some (before, after) ->
  partition sep before = None.
Proof.
  intros Hsep Hp.
  destruct (partition sep before) as [[b a]|] eqn:Hb; [| reflexivity].
  exfalso.
  pose proof (partition_sound _ _ _ _ Hp) as Hs.
  pose proof (partition_sound _ _ _ _ Hb) as Hbefore.
  rewrite Hbefore in Hb.
  pose proof (partition_tail _ _ _ (a ++ sep ++ after) Hb) as Hq.
  rewrite Hs, Hbefore, !append_assoc, Hq in Hp.
  injection Hp as Hlen _.
  apply (f_equal String.length) in Hlen.
  rewrite !length_append in Hlen.
  apply nonempty_length in Hsep. lia.
Qed.

Lemma split_parts_free (fuel : nat) (sep s : string) :
  sep <> "" -> String.length s <= fuel ->
  Forall (fun part => contains part sep = false) (split_parts fuel sep s).
Proof.
  intros Hsep. revert s; induction fuel as [|fuel IH]; intros s Hs;
    cbn [split_parts];
    destruct (partition sep s) as [[b a]|] eqn:Hp.
  - pose proof (partition_length _ _ _ _ Hp).
    apply nonempty_length in Hsep. lia.
  - constructor; [| constructor]. unfold contains. now rewrite Hp.
  - pose proof (partition_length _ _ _ _ Hp).
    pose proof (nonempty_length _ Hsep).
    constructor; [| apply IH; lia].
    unfold contains. now rewrite (partition_before_free _ _ _ _ Hsep Hp).
  - constructor; [| constructor]. unfold contains. now rewrite Hp.
Qed.

(** X2.  No part of a split contains the separator. *)
Theorem split_parts_without_separator (s sep : string) (parts : list string) :
  split s sep = Ok parts ->
  Forall (fun part => contains part sep = false) parts.
Proof.
  unfold split. destruct (sep =? "") eqn:Hsep; [discriminate |].
  intros [= <-]. apply String.eqb_neq in Hsep.
  now apply split_parts_free.
Qed.

Lemma split_parts_without_separator_witness :
  Forall (fun part => contains part "aa" = false) [""; "a"].
Proof.
  exact (split_parts_without_separator "aaa" "aa" [""; "a"] eq_refl).
Defined.

Lemma on_disk_changed
    (file_name separator action new_middle label disk : string) :
  on_disk (separate_compare_overwrite file_name separator action new_middle
             label disk) <> disk ->
  action = "overwrite"
  /\ ended (separate_compare_overwrite file_name separator action new_middle
              label disk) = Ok tt.
Proof.
  intros Hchanged.
  destruct (split (universal_newlines disk) separator) as [parts|e] eqn:Hs.
  - destruct (Nat.eq_dec (List.length parts) 3) as [H3|H3].
    + destruct parts as [|a [|b [|c [|d parts]]]]; try discriminate H3.
      rewrite (patch_three _ _ _ _ _ _ _ _ _ Hs) in Hchanged |- *.
      destruct ((action =? "compare") && negb (new_middle =? b));
        [now elim Hchanged |].
      destruct (action =? "overwrite") eqn:Ha; [| now elim Hchanged].
      apply String.eqb_eq in Ha. now split.
    + rewrite (patch_not_three _ _ _ _ _ _ _ Hs H3) in Hchanged.
      now elim Hchanged.
  - exfalso. apply Hchanged. unfold separate_compare_overwrite.
    cbv beta iota zeta delta [read open position contents].
    cbn [drop]. now rewrite Hs.
Qed.

(** X3.  The file is changed only by an overwrite that succeeds: a compare, an
    action that is neither, and every call that ends in an error leave the
    bytes as they were. *)
Theorem only_successful_overwrite_writes
    (file_name separator action new_middle label disk : string) :
  let r := separate_compare_overwrite file_name separator action new_middle
             label disk in
  on_disk r <> disk -> action = "overwrite" /\ ended r = Ok tt.
Proof. cbv zeta. apply on_disk_changed. Qed.

Lemma only_successful_overwrite_writes_witness :
  "overwrite" = "overwrite"
  /\ ended (separate_compare_overwrite "demos/README.md" "<!-- MARK -->"
              "overwrite" "new" "table" "head<!-- MARK -->old<!-- MARK -->tail")
     = Ok tt.
Proof.
  apply (only_successful_overwrite_writes "demos/README.md" "<!-- MARK -->"
           "overwrite" "new" "table" "head<!-- MARK -->old<!-- MARK -->tail").
  vm_compute. discriminate.
Defined.


(** X5.  A compare succeeds exactly when an overwrite would succeed and
    leave the text of the file as it is: the bytes of the file, when the
    file holds no carriage return. *)
Theorem compare_passes_iff_overwrite_keeps_text
    (file_name separator new_middle label disk : string) :
  let compared := separate_compare_overwrite file_name separator "compare"
                    new_middle label disk in
  let written := separate_compare_overwrite file_name separator "overwrite"
                   new_middle label disk in
  (ended compared = Ok tt
   <-> (ended written = Ok tt /\ on_disk written = universal_newlines disk))
  /\ (mentions CR disk = false ->
      (ended compared = Ok tt
       <-> (ended written = Ok tt /\ on_disk written = disk))).
Proof.
  cbv zeta.
  assert (Hiff :
    ended (separate_compare_overwrite file_name separator "compare"
             new_middle label disk) = Ok tt
    <-> (ended (separate_compare_overwrite file_name separator "overwrite"
                  new_middle label disk) = Ok tt
         /\ on_disk (separate_compare_overwrite file_name separator
                       "overwrite" new_middle label disk)
            = universal_newlines disk)).
  { split.
    - intros Hok. destruct (patch_ok_inv _ _ _ _ _ _ Hok) as (a & b & c & Hs).
      rewrite (patch_three _ _ _ _ _ _ _ _ _ Hs) in Hok.
      rewrite (patch_three _ _ _ _ _ _ _ _ _ Hs).
      cbn [String.eqb Ascii.eqb Bool.eqb andb] in Hok |- *.
      destruct (new_middle =? b) eqn:Hm; [| discriminate Hok].
      apply String.eqb_eq in Hm. subst b. split; [reflexivity |].
      cbn [on_disk]. symmetry. now apply split_three_sound.
    - intros [Hok Hsame].
      destruct (patch_ok_inv _ _ _ _ _ _ Hok) as (a & b & c & Hs).
      rewrite (patch_three _ _ _ _ _ _ _ _ _ Hs) in Hsame.
      rewrite (patch_three _ _ _ _ _ _ _ _ _ Hs).
      cbn [String.eqb Ascii.eqb Bool.eqb andb on_disk] in Hsame |- *.
      rewrite (split_three_sound _ _ _ _ _ Hs) in Hsame.
      apply append_inv_head, append_inv_head, append_inv_tail in Hsame.
      subst b. rewrite !String.eqb_refl. reflexivity. }
  split; [exact Hiff |].
  intros Hd. now rewrite (universal_newlines_id _ Hd) in Hiff.
Qed.

(* ================================================================== *)
(** * More on the builder and the renderers *)

Lemma add_to_last_app (l : list string) (x data : string) :
  add_to_last (l ++ [x])%list data = Ok (l ++ [(x ++ data)%string])%list.
Proof.
  induction l as [|y l IH]; [reflexivity |].
  destruct l as [|z l]; [reflexivity |].
  change (add_to_last ((y :: z :: l) ++ [x])%list data)
    with (r <- add_to_last ((z :: l) ++ [x])%list data ;; Ok (y :: r))%result.
  now rewrite IH.
Qed.

Lemma length_app_one {A : Type} (l : list A) (x : A) :
  Nat.eqb (List.length (l ++ [x])%list) (List.length l) = false.
Proof. apply Nat.eqb_neq. rewrite length_app. cbn. lia. Qed.

(** X6.  How an element is laid out in a builder that indents by a positive
    amount.  An element whose body adds nothing is one line; text added on
    one line stays on the line of the opening tag, which the closing tag
    ends; a line added by the body is indented one level deeper than the
    tags, which are at the same indentation.  The indentation level is the
    same after the element as before. *)
Theorem element_layout (name data : string) (lines : list string)
    (amount level count : nat) :
  let b := mkHtmlBuilder lines (Some (S amount)) level count in
  let indent := spaces (S amount * level) in
  let deeper := spaces (S amount * S level) in
  HtmlBuilder_element name [] false pass b
  = Ok (mkHtmlBuilder
          (lines ++ [((indent ++ "<" ++ name ++ ">") ++ "</" ++ name ++ ">")%string])%list
          (Some (S amount)) level (count + 2))
  /\ HtmlBuilder_element name [] false (HtmlBuilder_add data true) b
     = Ok (mkHtmlBuilder
             (lines ++ [(((indent ++ "<" ++ name ++ ">") ++ data)
                         ++ "</" ++ name ++ ">")%string])%list
             (Some (S amount)) level (count + 3))
  /\ HtmlBuilder_element name [] false (HtmlBuilder_add data false) b
     = Ok (mkHtmlBuilder
             (lines ++ [(indent ++ "<" ++ name ++ ">")%string;
                        (deeper ++ data)%string;
                        (indent ++ "</" ++ name ++ ">")%string])%list
             (Some (S amount)) level (count + 3)).
Proof.
  cbv zeta. unfold HtmlBuilder_element, and_then, set_indent_level, pass,
    HtmlBuilder_add.
  cbn [andb join String.concat map String.eqb bind html indent_amount
       indent_level add_count indent_truth Nat.pred].
  replace (count + 2) with (S (S count)) by lia.
  replace (count + 3) with (S (S (S count))) by lia.
  repeat split.
  - rewrite Nat.eqb_refl. cbn [bind]. now rewrite add_to_last_app.
  - rewrite add_to_last_app. cbn [bind html].
    rewrite !length_app. cbn [List.length]. rewrite Nat.eqb_refl.
    cbn [bind html]. now rewrite add_to_last_app.
  - cbn [bind html]. rewrite length_app_one. cbn [bind].
    now rewrite <- !app_assoc.
Qed.

(** One-line text needs a line to go on: on a builder without lines it
    raises, whatever the indentation. *)
Lemma add_one_line_needs_a_line (data : string) (indent : option nat)
    (level count : nat) :
  HtmlBuilder_add data true (mkHtmlBuilder [] indent level count)
  = Raise IndexError.
Proof. reflexivity. Qed.

Lemma attr_append (name l suffix : string) :
  suffix <> "" -> attr name (Some (l ++ suffix)) = [(name, l ++ suffix)].
Proof. intros Hs. unfold attr. now rewrite str_truth_append. Qed.

(** X7.  The hypertext of a node: the text, inside an anchor when the node has a
    link, inside a span with the details as title when it has details. *)
Theorem Html__render_t_form (self : Html) (t : T) :
  linkable t ->
  Html__render_t self t
  = Ok (let inner :=
          match link t, kind t with
          | Some l, Member index =>
              ("<a href='" ++ (l ++ "/README.md") ++ "'>") ++ text t ++ "</a>"
          | Some l, Member notebook =>
              ("<a href='" ++ (l ++ ".ipynb") ++ "'>") ++ text t ++ "</a>"
          | _, _ => text t
          end in
        match details t with
        | Some d =>
            if d =? "" then inner
            else ("<span title='" ++ d ++ "'>") ++ inner ++ "</span>"
        | None => inner
        end).
Proof.
  intros Hl. destruct t as [tx [l|] [d|] [[|]|]];
    try (destruct Hl as [Hl|[k Hl]]; discriminate Hl);
    try (destruct d as [|c d]);
    unfold Html__render_t, Format_link;
    cbn [link kind details text bind Html_Format index_suffix notebook_suffix
         Html_index_suffix Html_notebook_suffix];
    rewrite ?attr_append by discriminate;
    lazy -[append]; rewrite ?append_assoc, ?append_empty_r;
    cbn [append]; rewrite ?append_assoc; reflexivity.
Qed.

Lemma Html__render_t_form_witness :
  Html__render_t FILES_html (column_T NC)
  = Ok "<span title='Node classification'><a href='node-classification/README.md'>NC</a></span>".
Proof.
  exact (Html__render_t_form FILES_html (column_T NC) (column_linkable NC)).
Defined.

(* ================================================================== *)
(** * The rows of the structured-text table *)

(** A loop whose body appends a block of lines that depends on the element
    only appends the blocks, element by element. *)
Lemma appending_blocks {X : Type} (Q : X -> list string -> Prop) (xs : list X)
    (body : X -> list string -> result (list string))
    (lines lines' : list string) :
  (forall x l l', body x l = Ok l' ->
                  exists block, l' = (l ++ block)%list /\ Q x block) ->
  appending xs body lines = Ok lines' ->
  exists blocks, lines' = (lines ++ concat blocks)%list /\ Forall2 Q xs blocks.
Proof.
  intros Hbody. revert lines; induction xs as [|x xs IH]; intros lines.
  - intros [= <-]. exists []. split; [now rewrite app_nil_r | constructor].
  - cbn [appending].
    destruct (body x lines) as [lines1|e] eqn:H1; [| discriminate].
    cbn [bind]. intros H2.
    destruct (Hbody _ _ _ H1) as (block & -> & Hq).
    destruct (IH _ H2) as (blocks & -> & Hqs).
    exists (block :: blocks). split; [| now constructor].
    cbn [concat]. now rewrite app_assoc.
Qed.

Lemma concat_singletons {A : Type} (items : list A) :
  concat (map (fun item => [item]) items) = items.
Proof. induction items as [|x items IH]; cbn; [reflexivity | now rewrite IH]. Qed.

Lemma appending_items {X : Type} (P : X -> string -> Prop) (xs : list X)
    (body : X -> list string -> result (list string))
    (lines lines' : list string) :
  (forall x l l', body x l = Ok l' ->
                  exists item, l' = (l ++ [item])%list /\ P x item) ->
  appending xs body lines = Ok lines' ->
  exists items, lines' = (lines ++ items)%list /\ Forall2 P xs items.
Proof.
  intros Hbody Hrun.
  destruct (appending_blocks (fun x block => exists item, block = [item] /\ P x item)
              xs body lines lines') as (blocks & -> & Hb).
  - intros x l l' Hx. destruct (Hbody _ _ _ Hx) as (item & -> & Hp).
    exists [item]. split; [reflexivity | now exists item].
  - exact Hrun.
  - clear Hrun. induction Hb as [|x block xs blocks (item & -> & Hp) _ (items & He & Hf)].
    + exists []. split; [reflexivity | constructor].
    + exists (item :: items). split; [| now constructor].
      cbn [concat app]. apply app_inv_head in He. rewrite He. reflexivity.
Qed.

(** X8.  The structured-text table, line by line.  After the directive, its
    option, an empty line and a row marker comes one item per heading, in the
    order of the headings; then one block per record, in the order of the
    records: a row marker and one item per heading, in the order of the
    headings, a bare item marker where the cell renders to nothing. *)
Theorem Rst_render_rows (self : Rst) (headings : list heading)
    (algorithms : list Algorithm) (out : string) :
  Rst_render self headings algorithms = Ok out ->
  exists head_items blocks,
    out = join LF ([".. list-table::"; "   :header-rows: 1"; ""; new_row]
                     ++ head_items ++ concat blocks)%list
    /\ Forall2 (fun heading item =>
                  exists rst, Rst__render_t self (heading_T heading) = Ok rst
                              /\ item = new_item ++ " " ++ rst)
         headings head_items
    /\ Forall2 (fun algorithm block =>
                  exists items,
                    block = new_row :: items
                    /\ Forall2 (fun heading item =>
                                  exists cell rst,
                                    getitem algorithm heading = Ok cell
                                    /\ Rst__render_cell self cell = Ok rst
                                    /\ item = if rst =? "" then new_item
                                              else new_item ++ " " ++ rst)
                         headings items)
         algorithms blocks.
Proof.
  unfold Rst_render. cbn [app].
  match goal with
  | |- context [appending headings ?body ?lines] =>
      destruct (appending headings body lines) as [lines1|e] eqn:H1;
      [| discriminate]
  end.
  cbn [bind].
  match goal with
  | |- context [appending algorithms ?body lines1] =>
      destruct (appending algorithms body lines1) as [lines2|e] eqn:H2;
      [| discriminate]
  end.
  cbn [bind]. intros [= <-].
  eapply appending_items in H1 as (head_items & -> & Hhead).
  - eapply appending_blocks in H2 as (blocks & -> & Hblocks).
    + exists head_items, blocks. split; [| split; [exact Hhead | exact Hblocks]].
      now rewrite <- app_assoc.
    + intros algorithm l l' Hrow. cbv beta in Hrow.
      eapply appending_items in Hrow as (items & -> & Hitems).
      * exists (new_row :: items). split; [now rewrite <- app_assoc |].
        exists items. split; [reflexivity | exact Hitems].
      * intros heading l0 l0' Hcell. cbv beta in Hcell.
        destruct (getitem algorithm heading) as [cell|] eqn:Hg; [| discriminate].
        cbn [bind] in Hcell.
        destruct (Rst__render_cell self cell) as [rst|] eqn:Hr; [| discriminate].
        cbn [bind] in Hcell.
        destruct (rst =? "") eqn:He; cbn [negb] in Hcell;
          injection Hcell as <-; eexists; (split; [reflexivity |]);
          exists cell, rst; rewrite He; auto.
  - intros heading l l' Hh. cbv beta in Hh.
    destruct (Rst__render_t self (heading_T heading)) as [rst|] eqn:Hr;
      [| discriminate].
    cbn [bind] in Hh. injection Hh as <-.
    eexists. split; [reflexivity |]. now exists rst.
Qed.

Lemma Rst_render_rows_witness :
  exists head_items blocks,
    ".. list-table::" ++ LF ++ "   :header-rows: 1" ++ LF ++ LF
    ++ "   *" ++ LF ++ "     - Algorithm" ++ LF ++ "     - Inductive"
    = join LF ([".. list-table::"; "   :header-rows: 1"; ""; new_row]
                 ++ head_items ++ concat blocks)%list
    /\ List.length head_items = 2 /\ blocks = [].
Proof.
  destruct (Rst_render_rows FILES_rst [Declared ALGORITHM; Declared INDUCTIVE] []
              _ eq_refl) as (head_items & blocks & Hout & Hh & Hb).
  exists head_items, blocks. split; [exact Hout |]. split.
  - now rewrite <- (Forall2_length Hh).
  - now inversion Hb.
Defined.

(* ================================================================== *)
(** * More on links and records *)

(** Induction on elements, with the property on every element of a list and
    on every value of a record. *)
Fixpoint element_deep_ind (P : element -> Prop)
    (HNone : P ENone) (HBool : forall b, P (EBool b))
    (HStr : forall s, P (EStr s))
    (HList : forall l, Forall P l -> P (EList l))
    (HT : forall t, P (ET t))
    (HAlgorithm : forall columns,
        Forall (fun item => P (snd item)) columns -> P (EAlgorithm columns))
    (e : element) : P e :=
  match e with
  | ENone => HNone
  | EBool b => HBool b
  | EStr s => HStr s
  | EList l =>
      HList l
        ((fix each (l : list element) : Forall P l :=
            match l with
            | [] => Forall_nil P
            | x :: l =>
                Forall_cons x
                  (element_deep_ind P HNone HBool HStr HList HT HAlgorithm x)
                  (each l)
            end) l)
  | ET t => HT t
  | EAlgorithm columns =>
      HAlgorithm columns
        ((fix each (items : list (column * element))
            : Forall (fun item => P (snd item)) items :=
            match items with
            | [] => Forall_nil _
            | item :: items =>
                Forall_cons item
                  (element_deep_ind P HNone HBool HStr HList HT HAlgorithm
                     (snd item))
                  (each items)
            end) columns)
  end.

Lemma chain_yields {Y : Type} (P : Y -> Prop) (gs : list (generator Y)) :
  Forall (fun g => Forall P (fst g)) gs -> Forall P (fst (chain gs)).
Proof.
  unfold generator in *.
  induction 1 as [|g gs Hg _ IH]; [constructor |].
  change (chain (g :: gs)) with (yield_from g (chain gs)).
  unfold yield_from. destruct (snd g); [| exact Hg].
  cbn [fst]. apply Forall_app. now split.
Qed.

(** X9.  Whatever the tree, and whether or not the traversal ends by raising,
    every pair the extractor yields is a link as written and that link
    followed by one of the two checking suffixes of the format. *)
Theorem find_links_yields_resolved (F : Type) (HF : Format F) (fmt : F)
    (elt : element) :
  Forall (fun pair =>
            exists written,
              fst pair = Some written
              /\ (snd pair = Some (written ++ index_suffix fmt true)
                  \/ snd pair = Some (written ++ notebook_suffix fmt true)))
    (fst (find_links elt fmt)).
Proof.
  induction elt as [|b|s|l IH|t|columns IH] using element_deep_ind;
    try (cbn; constructor).
  - rewrite find_links_list. apply chain_yields.
    apply Forall_map. exact IH.
  - cbn [find_links]. unfold Format_link.
    destruct (link t) as [written|]; [| cbn; constructor].
    destruct (kind t) as [[|]|]; cbn [bind]; try (cbn; constructor);
      match goal with
      | |- context [str_truth ?r] => destruct (str_truth r)
      end; cbn; constructor; try constructor; exists written; auto.
  - rewrite find_links_record. apply chain_yields.
    rewrite map_map. apply Forall_map. exact IH.
Qed.

(** X10.  A link the validator accepts is a relative path that does not begin with
    "http" in any letter case, and an entry exists at the base directory
    followed by it, with one "/" between them unless the base directory is
    empty or ends with one. *)
Theorem valid_link_is_relative_and_exists (exists_ : string -> bool)
    (link base_dir : string) :
  link_is_valid_relative exists_ (Some link) base_dir = true ->
  isabs link = false
  /\ startswith (lower link) "http" = false
  /\ has_scheme_marker link = false
  /\ exists between,
       (between = "" \/ between = "/")
       /\ (between = "" <-> (base_dir = "" \/ endswith_slash base_dir = true))
       /\ exists_ (base_dir ++ between ++ link) = true.
Proof.
  unfold link_is_valid_relative.
  destruct (isabs link) eqn:Ha; [discriminate |].
  destruct (startswith (lower link) "http") eqn:Hh; [discriminate |].
  rewrite (path_join_relative _ _ Ha). intros He.
  split; [reflexivity |]. split; [reflexivity |]. split.
  - destruct (has_scheme_marker link) eqn:Hm; [| reflexivity].
    apply scheme_marker_http in Hm. congruence.
  - destruct (base_dir =? "") eqn:Hb; cbn [orb] in He.
    + exists "". apply String.eqb_eq in Hb. intuition.
    + apply String.eqb_neq in Hb.
      destruct (endswith_slash base_dir) eqn:Hs.
      * exists "". intuition.
      * exists "/". intuition; discriminate.
Qed.

Lemma valid_link_is_relative_and_exists_witness :
  isabs "embeddings/README.md" = false
  /\ startswith (lower "embeddings/README.md") "http" = false
  /\ has_scheme_marker "embeddings/README.md" = false
  /\ exists between,
       (between = "" \/ between = "/")
       /\ (between = "" <-> ("demos" = "" \/ endswith_slash "demos" = true))
       /\ (fun path : string => path =? "demos/embeddings/README.md")
            ("demos" ++ between ++ "embeddings/README.md") = true.
Proof.
  exact (valid_link_is_relative_and_exists
           (fun path : string => path =? "demos/embeddings/README.md")
           "embeddings/README.md" "demos" eq_refl).
Defined.

(** X11.  Looking a declared heading up in a constructed record gives the
    normalized argument that was passed for it, whatever was passed as
    [interpretability_nc]; any other heading object is a missing key. *)
Theorem Algorithm_init_getitem
    (algorithm heterogeneous directed weighted temporal features nc
       interpretability_nc lp rl inductive gc : value) (a : Algorithm) :
  Algorithm_init algorithm heterogeneous directed weighted temporal features
    nc interpretability_nc lp rl inductive gc = Ok a ->
  (forall c,
     exists cell,
       T_textify (argument_for algorithm heterogeneous directed weighted
                    temporal features nc lp rl inductive gc c) = Ok cell
       /\ getitem a (Declared c) = Ok (of_value cell))
  /\ (forall t, getitem a (Undeclared t) = Raise KeyError).
Proof.
  unfold Algorithm_init. cbn [textify_items].
  destruct (T_textify algorithm) as [c1|] eqn:E1; [| discriminate].
  destruct (T_textify heterogeneous) as [c2|] eqn:E2; [| discriminate].
  destruct (T_textify directed) as [c3|] eqn:E3; [| discriminate].
  destruct (T_textify weighted) as [c4|] eqn:E4; [| discriminate].
  destruct (T_textify temporal) as [c5|] eqn:E5; [| discriminate].
  destruct (T_textify features) as [c6|] eqn:E6; [| discriminate].
  destruct (T_textify nc) as [c7|] eqn:E7; [| discriminate].
  destruct (T_textify lp) as [c8|] eqn:E8; [| discriminate].
  destruct (T_textify rl) as [c9|] eqn:E9; [| discriminate].
  destruct (T_textify inductive) as [c10|] eqn:E10; [| discriminate].
  destruct (T_textify gc) as [c11|] eqn:E11; [| discriminate].
  cbn [bind]. intros [= <-]. split; [| reflexivity].
  intros c. destruct c; cbn [argument_for]; eexists; (split; [eassumption | reflexivity]).
Qed.

Lemma Algorithm_init_getitem_witness :
  exists a,
    Algorithm_init (VStr "GCN") VNone VNone VNone VNone (VBool true) VNone
      (VStr "ignored") VNone VNone VNone VNone = Ok a
    /\ getitem a (Declared FEATURES)
       = Ok (ET (mkT "yes" None None (Member notebook)))
    /\ getitem a (Undeclared (column_T FEATURES)) = Raise KeyError.
Proof.
  destruct (Algorithm_init_columns (VStr "GCN") VNone VNone VNone VNone
              (VBool true) VNone (VStr "ignored") VNone VNone VNone VNone)
    as (a & Ha & _).
  exists a. split; [exact Ha |].
  destruct (Algorithm_init_getitem _ _ _ _ _ _ _ _ _ _ _ _ a Ha) as [Hget Hmiss].
  split; [| apply Hmiss].
  destruct (Hget FEATURES) as (cell & Hc & Hg).
  cbn in Hc. injection Hc as <-. exact Hg.
Defined.

(* ================================================================== *)
(** * A heading that is not a declared one *)

Lemma raises_and_then_first (e : exn) (m k : method) :
  raises e m -> raises e (m ;;; k)%method.
Proof. intros Hm b Hb. unfold and_then. now rewrite (Hm b Hb). Qed.

Lemma raises_and_then_second (e : exn) (m k : method) :
  runs m -> raises e k -> raises e (m ;;; k)%method.
Proof.
  intros Hm Hk b Hb. unfold and_then.
  destruct (Hm b Hb) as (b1 & -> & Hb1). exact (Hk b1 Hb1).
Qed.

Lemma raises_inside (e : exn) (name : string) (body : method) :
  raises e body -> raises e (inside_element name body).
Proof.
  intros Hbody. unfold inside_element.
  apply raises_and_then_second; [apply runs_indent |].
  intros b Hb. now apply (raises_and_then_first e body).
Qed.

Lemma raises_element (e : exn) (name : string) (body : method) :
  raises e body -> raises e (HtmlBuilder_element name [] false body).
Proof.
  intros Hbody. rewrite element_with_tag.
  apply raises_and_then_second; [apply runs_add | now apply raises_inside].
Qed.

Lemma raises_for_each {X : Type} (e : exn) (xs : list X) (body : X -> method)
    (x : X) :
  In x xs -> raises e (body x) ->
  (forall y, In y xs -> runs (body y) \/ raises e (body y)) ->
  raises e (for_each xs body).
Proof.
  intros Hin Hx. induction xs as [|y xs IH]; intros Hall; [destruct Hin |].
  cbn [for_each]. destruct Hin as [->|Hin].
  - now apply raises_and_then_first.
  - destruct (Hall y (or_introl eq_refl)) as [Hy|Hy].
    + apply raises_and_then_second; [exact Hy |].
      apply IH; [exact Hin |]. intros z Hz. apply Hall. now right.
    + now apply raises_and_then_first.
Qed.

Lemma appending_raises {X : Type} (e : exn) (xs : list X)
    (body : X -> list string -> result (list string)) (x : X) :
  In x xs -> (forall l, body x l = Raise e) ->
  (forall y, In y xs ->
     (forall l, exists l', body y l = Ok l') \/ (forall l, body y l = Raise e)) ->
  forall l, appending xs body l = Raise e.
Proof.
  intros Hin Hx. induction xs as [|y xs IH]; intros Hall l; [destruct Hin |].
  cbn [appending]. destruct Hin as [->|Hin].
  - now rewrite Hx.
  - destruct (Hall y (or_introl eq_refl)) as [Hy|Hy].
    + destruct (Hy l) as (l' & ->). cbn [bind].
      apply IH; [exact Hin |]. intros z Hz. apply Hall. now right.
    + now rewrite Hy.
Qed.

Lemma heading_cases (h : heading) :
  (exists c, h = Declared c) \/ (exists t, h = Undeclared t).
Proof. destruct h as [c|t]; [left; now exists c | right; now exists t]. Qed.

(** The header row of the hypertext table is rendered for headings whose
    links resolve. *)
Lemma runs_header_row (self : Html) (headings : list heading) :
  Forall (fun h => linkable (heading_T h)) headings ->
  runs (HtmlBuilder_element "tr" [] false
          (for_each headings (fun heading =>
             HtmlBuilder_element "th" [] false
               (fun builder =>
                  (s <- Html__render_t self (heading_T heading) ;;
                   HtmlBuilder_add s true builder)%result)))).
Proof.
  intros Hl. apply runs_element, runs_for_each.
  eapply Forall_impl; [| exact Hl]. intros h Hh. cbv beta.
  apply runs_element.
  destruct (Html__render_t_returns self (heading_T h) Hh) as (s & Hs).
  apply (runs_bind _ _ s Hs), runs_add.
Qed.

(** X12.  Headings are looked up in a record by the identity of the heading
    object.  With a heading that is not one of the declared ones (and links
    that resolve in every heading), both renderers raise [KeyError] as soon
    as there is a record, and render the table when there is none. *)
Theorem render_undeclared_heading (__file__ : string) (html : Html) (rst : Rst)
    (headings : list heading) (t : T) (a : Algorithm)
    (algorithms : list Algorithm) :
  In (Undeclared t) headings ->
  Forall (fun h => linkable (heading_T h)) headings ->
  complete a ->
  Html_render __file__ html headings (a :: algorithms) = Raise KeyError
  /\ Rst_render rst headings (a :: algorithms) = Raise KeyError
  /\ (exists out, Html_render __file__ html headings [] = Ok out)
  /\ (exists out, Rst_render rst headings [] = Ok out).
Proof.
  intros Hin Hl Ha. repeat split.
  - unfold Html_render.
    match goal with
    | |- context [(?m ;;; ?k)%method (HtmlBuilder_init ?i)] =>
        assert (Hk : raises KeyError k);
        [| unfold and_then at 1;
           destruct (starts_add ("<!-- " ++ AUTOGENERATED_PROMPT __file__ ++ " -->")
                       (HtmlBuilder_init i)) as (b1 & -> & Hb1);
           cbn [bind]; now rewrite (Hk b1 Hb1)]
    end.
    apply raises_element, raises_and_then_second;
      [now apply runs_header_row |].
    cbn [for_each]. apply raises_and_then_first, raises_element.
    apply (raises_for_each KeyError headings _ (Undeclared t) Hin).
    + apply raises_element. intros b Hb. reflexivity.
    + intros h _. destruct (heading_cases h) as [(c & ->)|(t' & ->)].
      * left. apply runs_element.
        destruct (getitem_complete a c Ha) as (cell & Hg & Hn).
        apply (runs_bind _ _ cell Hg), runs_render_cell, Hn.
      * right. apply raises_element. intros b Hb. reflexivity.
  - unfold Rst_render.
    match goal with
    | |- context [appending headings ?body ?lines0] =>
        assert (Hhead : forall lines, exists lines',
                   appending headings body lines = Ok lines');
        [apply appending_returns | destruct (Hhead lines0) as (lines1 & ->)]
    end.
    + eapply Forall_impl; [| exact Hl]. intros h Hh lines. cbv beta.
      destruct (Rst__render_t_returns rst (heading_T h) Hh) as (s & ->).
      now eexists.
    + cbn [bind appending].
      rewrite (appending_raises KeyError headings _ (Undeclared t) Hin);
        [reflexivity | reflexivity |].
      intros h _. destruct (heading_cases h) as [(c & ->)|(t' & ->)].
      * left. intros l.
        destruct (getitem_complete a c Ha) as (cell & -> & Hn). cbn [bind].
        destruct (Rst__render_cell_returns rst cell Hn) as (s & ->).
        cbn [bind]. destruct (negb (s =? "")); now eexists.
      * right. reflexivity.
  - unfold Html_render.
    match goal with
    | |- context [(?m ;;; ?k)%method (HtmlBuilder_init ?i)] =>
        assert (Hs : starts (m ;;; k)%method);
        [apply starts_and_then; [apply starts_add |]
        | destruct (Hs (HtmlBuilder_init i)) as (b' & -> & _); now eexists]
    end.
    apply runs_element, runs_and_then; [now apply runs_header_row |].
    apply runs_pass.
  - unfold Rst_render.
    match goal with
    | |- context [appending headings ?body ?lines0] =>
        assert (Hhead : forall lines, exists lines',
                   appending headings body lines = Ok lines');
        [apply appending_returns | destruct (Hhead lines0) as (lines1 & ->)]
    end.
    + eapply Forall_impl; [| exact Hl]. intros h Hh lines. cbv beta.
      destruct (Rst__render_t_returns rst (heading_T h) Hh) as (s & ->).
      now eexists.
    + now eexists.
Qed.

Lemma render_undeclared_heading_witness :
  exists gcn,
    Algorithm_init (VStr "GCN") VNone VNone VNone VNone VNone VNone VNone
      VNone VNone VNone VNone = Ok gcn
    /\ Rst_render FILES_rst
         [Declared ALGORITHM; Undeclared (column_T ALGORITHM)] [gcn]
       = Raise KeyError.
Proof.
  destruct (Algorithm_init_complete (VStr "GCN") VNone VNone VNone VNone VNone
              VNone VNone VNone VNone VNone VNone) as (gcn & Hg & Hc).
  - repeat constructor.
  - exists gcn. split; [exact Hg |].
    apply (render_undeclared_heading "scripts/demo_indexing.py" FILES_html
             FILES_rst [Declared ALGORITHM; Undeclared (column_T ALGORITHM)]
             (column_T ALGORITHM) gcn []).
    + right. now left.
    + repeat constructor; apply column_linkable.
    + exact Hc.
Defined.

(* ================================================================== *)
(** * What a run changes *)

Lemma same_files_refl (w : world) : same_files w w.
Proof. now split. Qed.

Lemma same_files_trans (w1 w2 w3 : world) :
  same_files w1 w2 -> same_files w2 w3 -> same_files w1 w3.
Proof.
  intros [Hf Hc] [Hf' Hc']. split.
  - intros path. now rewrite Hf', Hf.
  - now rewrite Hc', Hc.
Qed.

Lemma read_only_bind {A B : Type} (m : script A) (k : A -> script B) :
  read_only m -> (forall a, read_only (k a)) -> read_only (script_bind m k).
Proof.
  intros Hm Hk w. unfold script_bind. specialize (Hm w).
  destruct (m w) as [w' [a|r]]; cbn [fst] in *; [| exact Hm].
  exact (same_files_trans _ _ _ Hm (Hk a w')).
Qed.

Lemma read_only_return {A : Type} (a : A) : read_only (script_return a).
Proof. intros w. apply same_files_refl. Qed.

Lemma read_only_lift {A : Type} (r : result A) : read_only (lift r).
Proof. intros w. apply same_files_refl. Qed.

Lemma read_only_error {A : Type} (message : report) (edit_fixit : bool) :
  read_only (@script_error A message edit_fixit).
Proof. intros w. now split. Qed.

Lemma read_only_for {X : Type} (xs : list X) (body : X -> script unit) :
  (forall x, read_only (body x)) -> read_only (script_for xs body).
Proof.
  intros Hbody. induction xs as [|x xs IH]; cbn [script_for].
  - apply read_only_return.
  - apply read_only_bind; [apply Hbody | intros _; exact IH].
Qed.

Lemma read_only_patch (file_name separator action new_middle label : string) :
  action <> "overwrite" ->
  read_only (patch file_name separator action new_middle label).
Proof.
  intros Ha w. unfold patch.
  destruct (w_files w file_name) as [disk|] eqn:Hdisk;
    [| apply same_files_refl].
  cbv zeta. split; [| reflexivity]. cbn [fst w_files]. intros path.
  unfold write_file. destruct (path =? file_name) eqn:Hp; [| reflexivity].
  apply String.eqb_eq in Hp. subst path. rewrite Hdisk. f_equal.
  destruct (string_dec
              (on_disk (separate_compare_overwrite file_name separator action
                          new_middle label disk)) disk) as [He|Hne];
    [exact He |].
  now destruct (on_disk_changed _ _ _ _ _ _ Hne) as [Hover _].
Qed.

Lemma read_only_demo_listing_table
    (notebooks_under : string -> list string)
    (nbformat_read : string -> string -> list string) (root : string) :
  read_only (demo_listing_table notebooks_under nbformat_read root).
Proof.
  intros w. unfold demo_listing_table. cbv zeta.
  destruct (demo_rows nbformat_read root (path_join (w_cwd w) root)
              (sorted (notebooks_under (path_join (w_cwd w) root))))
    as [rows e].
  now split.
Qed.

Lemma read_only_tables_of (__file__ : string) (exists_ : string -> bool)
    (catalog : list Algorithm) (action : string) :
  action <> "overwrite" ->
  read_only (tables_of __file__ exists_ catalog action).
Proof.
  intros Ha. unfold tables_of, tables_file.
  repeat first
    [ apply read_only_bind; [| intros ?]
    | apply read_only_lift
    | apply read_only_return
    | apply read_only_error
    | now apply read_only_patch
    | match goal with |- read_only (if ?c then _ else _) => destruct c end ].
Qed.

Lemma read_only_demo_indexing (__file__ : string) (exists_ : string -> bool)
    (notebooks_under : string -> list string)
    (nbformat_read : string -> string -> list string)
    (demo_directories : list string) (action : string) :
  action <> "overwrite" ->
  read_only (demo_indexing __file__ exists_ notebooks_under nbformat_read
               demo_directories action).
Proof.
  intros Ha. unfold demo_indexing. apply read_only_for. intros directory.
  unfold demo_indexing_directory. cbv zeta.
  repeat first
    [ apply read_only_bind; [| intros ?]
    | apply read_only_lift
    | apply read_only_return
    | apply read_only_error
    | apply read_only_demo_listing_table
    | now apply read_only_patch
    | match goal with |- read_only (if ?c then _ else _) => destruct c end ].
Qed.

(** X13.  A run whose action is not "overwrite" (a compare, then) changes the
    contents of no file, however it ends, and ends in the working directory
    it began in. *)
Theorem compare_run_changes_no_file (__file__ : string)
    (exists_ : string -> bool) (notebooks_under : string -> list string)
    (nbformat_read : string -> string -> list string)
    (demo_directories : list string) (action : string) (w : world) :
  action <> "overwrite" ->
  same_files w
    (fst (main __file__ exists_ notebooks_under nbformat_read demo_directories
            action w)).
Proof.
  intros Ha. revert w. change (read_only
    (main __file__ exists_ notebooks_under nbformat_read demo_directories
       action)).
  unfold main, tables.
  apply read_only_bind; [| intros _; now apply read_only_demo_indexing].
  apply read_only_bind; [apply read_only_lift |].
  intros catalog. now apply read_only_tables_of.
Qed.

Lemma compare_run_changes_no_file_witness :
  "compare" <> "overwrite"
  /\ same_files a_checkout
       (fst (main "scripts/demo_indexing.py" (fun _ => true) (fun _ => [])
               (fun _ _ => []) ["demos/"] "compare" a_checkout)).
Proof.
  split; [discriminate |].
  apply (compare_run_changes_no_file "scripts/demo_indexing.py"
           (fun _ => true) (fun _ => []) (fun _ _ => []) ["demos/"] "compare"
           a_checkout).
  discriminate.
Defined.

(* ================================================================== *)
(** * Tables once overwritten *)

Lemma patch_returned (file_name separator action new_middle label : string)
    (w w1 : world) :
  patch file_name separator action new_middle label w = (w1, Returned tt) ->
  exists disk a b c,
    w_files w file_name = Some disk
    /\ split (universal_newlines disk) separator = Ok [a; b; c]
    /\ forall path,
         w_files w1 path
         = write_file (w_files w) file_name
             (on_disk (separate_compare_overwrite file_name separator action
                         new_middle label disk)) path.
Proof.
  unfold patch. destruct (w_files w file_name) as [disk|]; [| discriminate].
  cbv zeta.
  destruct (ended (separate_compare_overwrite file_name separator action
                     new_middle label disk)) as [[]|e] eqn:He;
    [| discriminate].
  intros [= <-]. destruct (patch_ok_inv _ _ _ _ _ _ He) as (a & b & c & Hs).
  exists disk, a, b, c. now repeat split.
Qed.

Lemma patch_overwrite_settles (file_name separator new_middle label : string)
    (w w1 : world) :
  mentions CR new_middle = false ->
  separator_only_at_end separator new_middle ->
  patch file_name separator "overwrite" new_middle label w = (w1, Returned tt) ->
  settled file_name separator new_middle w1
  /\ forall path, path <> file_name -> w_files w1 path = w_files w path.
Proof.
  intros Hnew Hend Hp.
  destruct (patch_returned _ _ _ _ _ _ _ Hp) as (disk & a & b & c & _ & Hs & Hw).
  split.
  - exists a, c. rewrite Hw. unfold write_file. rewrite String.eqb_refl.
    rewrite (patch_three _ _ _ _ _ _ _ _ _ Hs).
    cbn [String.eqb Ascii.eqb Bool.eqb andb on_disk].
    split; [reflexivity |].
    exact (reread_after_overwrite _ _ _ _ _ _ Hnew Hend Hs).
  - intros path Hne. rewrite Hw. unfold write_file.
    apply String.eqb_neq in Hne. now rewrite Hne.
Qed.

Lemma patch_on_settled (file_name separator action new_middle label : string)
    (w : world) :
  settled file_name separator new_middle w ->
  exists w',
    patch file_name separator action new_middle label w = (w', Returned tt)
    /\ same_world w w'.
Proof.
  intros (a & c & Hdisk & Hs). unfold patch. rewrite Hdisk. cbv zeta.
  rewrite (patch_three _ _ _ _ _ _ _ _ _ Hs).
  rewrite String.eqb_refl. cbn [negb]. rewrite andb_false_r.
  eexists. split.
  - destruct (action =? "overwrite"); reflexivity.
  - split; [split |]; cbn [w_files w_cwd w_stdout w_stderr].
    + intros path. unfold write_file.
      destruct (path =? file_name) eqn:Hp; [| reflexivity].
      apply String.eqb_eq in Hp. subst path. rewrite Hdisk.
      now destruct (action =? "overwrite").
    + reflexivity.
    + destruct (action =? "overwrite"); cbn [stdout stderr map];
        now rewrite !app_nil_r.
Qed.

Lemma settled_same_files (file_name separator new_middle : string)
    (w w' : world) :
  (forall path, w_files w' path = w_files w path) ->
  settled file_name separator new_middle w ->
  settled file_name separator new_middle w'.
Proof.
  intros Hf (a & c & Hdisk & Hs). exists a, c. now rewrite Hf.
Qed.

Lemma same_world_trans (w1 w2 w3 : world) :
  same_world w1 w2 -> same_world w2 w3 -> same_world w1 w3.
Proof.
  intros (Hf & Ho & He) (Hf' & Ho' & He'). split; [| split].
  - exact (same_files_trans _ _ _ Hf Hf').
  - now rewrite Ho', Ho.
  - now rewrite He', He.
Qed.

(** The body of the loop of [tables] that returned: the table was
    rendered, and every run of the body with these records is the patch of
    the file with that table. *)
Lemma tables_file_returned {F : Type} `{Format F} (__file__ : string)
    (exists_ : string -> bool)
    (render : F -> list heading -> list Algorithm -> result string)
    (catalog : list Algorithm) (action : string) (file_fmt : F)
    (w w1 : world) :
  tables_file __file__ exists_ render catalog action file_fmt w
  = (w1, Returned tt) ->
  exists new_table,
    render file_fmt (map Declared COLUMNS) catalog = Ok new_table
    /\ patch (file_name file_fmt) (separator file_fmt) action new_table
         "table" w = (w1, Returned tt)
    /\ forall action' w',
         tables_file __file__ exists_ render catalog action' file_fmt w'
         = patch (file_name file_fmt) (separator file_fmt) action' new_table
             "table" w'.
Proof.
  unfold tables_file, script_bind, lift, script_return, script_error.
  destruct (render file_fmt (map Declared COLUMNS) catalog) as [new_table|e];
    [| discriminate].
  match goal with
  | |- context [snd ?found] => destruct (snd found) as [[]|e]; [| discriminate]
  end.
  match goal with
  | |- context [negb ?c] => destruct (negb c); [discriminate |]
  end.
  intros Hp. exists new_table. now repeat split.
Qed.

(** X14.  Once [tables("overwrite")] has returned, with tables that hold no
    carriage return and meet the separators only at their end, [tables]
    returns for every action (an overwrite or a compare) and leaves the
    world as it is: the files, the working directory and what was
    printed. *)
Theorem tables_settled_after_overwrite (__file__ : string)
    (exists_ : string -> bool) (catalog : list Algorithm)
    (rst_table html_table : string) (w w1 : world) (action : string) :
  Rst_render FILES_rst (map Declared COLUMNS) catalog = Ok rst_table ->
  Html_render __file__ FILES_html (map Declared COLUMNS) catalog
  = Ok html_table ->
  mentions CR rst_table = false ->
  mentions CR html_table = false ->
  separator_only_at_end (separator FILES_rst) rst_table ->
  separator_only_at_end (separator FILES_html) html_table ->
  tables_of __file__ exists_ catalog "overwrite" w = (w1, Returned tt) ->
  exists w2,
    tables_of __file__ exists_ catalog action w1 = (w2, Returned tt)
    /\ same_world w1 w2.
Proof.
  intros Hrst Hhtml Hcr_rst Hcr_html Hend_rst Hend_html Hrun.
  unfold tables_of in Hrun |- *. unfold script_bind in Hrun.
  destruct (tables_file __file__ exists_ Rst_render catalog "overwrite"
              FILES_rst w) as [w_rst [[]|r]] eqn:Hfirst; [| discriminate].
  destruct (tables_file_returned _ _ _ _ _ _ _ _ Hfirst)
    as (t_rst & Ht_rst & Hp_rst & Hagain_rst).
  destruct (tables_file_returned _ _ _ _ _ _ _ _ Hrun)
    as (t_html & Ht_html & Hp_html & Hagain_html).
  rewrite Hrst in Ht_rst. injection Ht_rst as <-.
  rewrite Hhtml in Ht_html. injection Ht_html as <-.
  destruct (patch_overwrite_settles _ _ _ _ _ _ Hcr_rst Hend_rst Hp_rst)
    as [Hs_rst _].
  destruct (patch_overwrite_settles _ _ _ _ _ _ Hcr_html Hend_html Hp_html)
    as [Hs_html Hother].
  assert (Hs_rst1 : settled (file_name FILES_rst) (separator FILES_rst)
                      rst_table w1).
  { destruct Hs_rst as (a & c & Hdisk & Hs). exists a, c.
    rewrite Hother by discriminate. now split. }
  unfold script_bind. rewrite Hagain_rst.
  destruct (patch_on_settled _ _ action _ "table" _ Hs_rst1)
    as (w1' & -> & Hsame1).
  rewrite Hagain_html.
  destruct (patch_on_settled (file_name FILES_html) (separator FILES_html)
              action html_table "table" w1') as (w2 & -> & Hsame2).
  - destruct Hsame1 as [[Hf _] _].
    exact (settled_same_files _ _ _ _ _ Hf Hs_html).
  - exists w2. split; [reflexivity |].
    exact (same_world_trans _ _ _ Hsame1 Hsame2).
Qed.

Lemma tables_settled_after_overwrite_witness :
  exists catalog w1 w2,
    ALGORITHMS = Ok catalog
    /\ tables_of "scripts/demo_indexing.py" (fun _ => true) catalog "overwrite"
         a_checkout = (w1, Returned tt)
    /\ tables_of "scripts/demo_indexing.py" (fun _ => true) catalog "compare"
         w1 = (w2, Returned tt)
    /\ same_world w1 w2.
Proof.
  pose (catalog := match ALGORITHMS with Ok c => c | Raise _ => [] end).
  pose (w1 := fst (tables_of "scripts/demo_indexing.py" (fun _ => true)
                     catalog "overwrite" a_checkout)).
  assert (Hc : ALGORITHMS = Ok catalog) by (vm_compute; reflexivity).
  assert (Hrun : tables_of "scripts/demo_indexing.py" (fun _ => true) catalog
                   "overwrite" a_checkout = (w1, Returned tt))
    by (vm_compute; reflexivity).
  destruct (fun rst_table html_table Hrst Hhtml Hcr_rst Hcr_html Hend_rst
                Hend_html =>
              tables_settled_after_overwrite "scripts/demo_indexing.py"
                (fun _ => true) catalog rst_table html_table a_checkout w1
                "compare" Hrst Hhtml Hcr_rst Hcr_html Hend_rst Hend_html Hrun)
    with
      (rst_table := match Rst_render FILES_rst (map Declared COLUMNS) catalog
                    with Ok t => t | Raise _ => "" end)
      (html_table := match Html_render "scripts/demo_indexing.py" FILES_html
                             (map Declared COLUMNS) catalog
                     with Ok t => t | Raise _ => "" end)
    as (w2 & Hagain & Hsame);
    try (vm_compute; reflexivity).
  exists catalog, w1, w2.
  split; [exact Hc |]. split; [exact Hrun |]. split; [exact Hagain | exact Hsame].
Defined.

(* ================================================================== *)
(** * The listing of a directory of demos *)

Lemma compare_lt_trans (s1 s2 s3 : string) :
  String.compare s1 s2 = Lt -> String.compare s2 s3 = Lt ->
  String.compare s1 s3 = Lt.
Proof.
  revert s2 s3. induction s1 as [|c1 s1 IH]; intros [|c2 s2] [|c3 s3];
    cbn [String.compare]; try easy.
  destruct (Ascii.compare c1 c2) eqn:H12; try easy;
    destruct (Ascii.compare c2 c3) eqn:H23; try easy.
  - apply Ascii.compare_eq_iff in H12, H23. subst c2 c3.
    assert (H : Ascii.compare c1 c1 = Eq)
      by apply BinNat.N.compare_refl.
    rewrite H. apply IH.
  - apply Ascii.compare_eq_iff in H12. subst c2. now rewrite H23.
  - apply Ascii.compare_eq_iff in H23. subst c3. now rewrite H12.
  - unfold Ascii.compare in *.
    rewrite BinNat.N.compare_lt_iff in H12, H23.
    pose proof (BinNat.N.lt_trans _ _ _ H12 H23) as H13.
    rewrite <- BinNat.N.compare_lt_iff in H13. now rewrite H13.
Qed.

Lemma leb_trans (s1 s2 s3 : string) :
  String.leb s1 s2 = true -> String.leb s2 s3 = true ->
  String.leb s1 s3 = true.
Proof.
  unfold String.leb.
  destruct (String.compare s1 s2) eqn:H12; try easy;
    destruct (String.compare s2 s3) eqn:H23; try easy; intros _ _.
  - apply String.compare_eq_iff in H12. subst s2. now rewrite H23.
  - apply String.compare_eq_iff in H12. subst s2. now rewrite H23.
  - apply String.compare_eq_iff in H23. subst s3. now rewrite H12.
  - now rewrite (compare_lt_trans _ _ _ H12 H23).
Qed.

Lemma leb_false (s1 s2 : string) :
  String.leb s1 s2 = false -> String.leb s2 s1 = true.
Proof.
  intros H. destruct (String.leb_total s1 s2) as [H'|H']; [| exact H'].
  rewrite H in H'. discriminate H'.
Qed.

(** Closes a goal whose hypotheses on the order of strings cannot hold
    together. *)
Ltac out_of_order :=
  exfalso;
  repeat match goal with
         | H : String.leb ?a ?b = false |- _ =>
             pose proof (leb_false _ _ H);
             apply not_true_iff_false in H
         end;
  match goal with
  | H : String.leb ?a ?c <> true |- _ =>
      apply H; first
        [ assumption
        | match goal with
          | H1 : String.leb a ?b = true, H2 : String.leb ?b c = true |- _ =>
              exact (leb_trans _ _ _ H1 H2)
          end ]
  end.

(** Two strings that each come before the other are one string. *)
Ltac one_string :=
  match goal with
  | H1 : String.leb ?a ?b = true, H2 : String.leb ?b ?a = true |- _ =>
      pose proof (String.leb_antisym _ _ H1 H2); subst b
  end.

Lemma insert_insert (x y : string) (l : list string) :
  insert x (insert y l) = insert y (insert x l).
Proof.
  induction l as [|z l IH]; cbn [insert].
  - destruct (String.leb x y) eqn:Hxy, (String.leb y x) eqn:Hyx;
      try reflexivity; [now one_string | out_of_order].
  - destruct (String.leb x y) eqn:Hxy, (String.leb y x) eqn:Hyx,
             (String.leb x z) eqn:Hxz, (String.leb y z) eqn:Hyz;
      cbn [insert]; rewrite ?Hxy, ?Hyx, ?Hxz, ?Hyz;
      try reflexivity; try (now rewrite IH);
      try (one_string; congruence); out_of_order.
Qed.

(** [sorted] does not depend on the order of what it is given. *)
Lemma sorted_permutation (l l' : list string) :
  Permutation l l' -> sorted l = sorted l'.
Proof.
  unfold sorted. induction 1 as [|x l l' _ IH|x y l|l l' l'' _ IH1 _ IH2];
    cbn [fold_right].
  - reflexivity.
  - now rewrite IH.
  - apply insert_insert.
  - now rewrite IH1.
Qed.



(** X15.  The notebooks are sorted "to get a consistent order, independent of the
    file system traversal order": two traversals that find the same
    notebooks in a different order give the same listing, and end alike. *)
Theorem listing_independent_of_traversal_order
    (notebooks_under notebooks_under' : string -> list string)
    (nbformat_read : string -> string -> list string) (root : string)
    (w : world) :
  (forall directory,
     Permutation (notebooks_under directory) (notebooks_under' directory)) ->
  demo_listing_table notebooks_under nbformat_read root w
  = demo_listing_table notebooks_under' nbformat_read root w.
Proof.
  intros Hp. unfold demo_listing_table. cbv zeta.
  now rewrite (sorted_permutation _ _ (Hp (path_join (w_cwd w) root))).
Qed.

Lemma listing_independent_of_traversal_order_witness :
  demo_listing_table (fun _ => ["b.ipynb"; "a/c.ipynb"; "a.ipynb"])
    (fun _ demo => ["# Title of " ++ demo]) "demos/basics/" a_checkout
  = demo_listing_table (fun _ => ["a.ipynb"; "b.ipynb"; "a/c.ipynb"])
      (fun _ demo => ["# Title of " ++ demo]) "demos/basics/" a_checkout.
Proof.
  apply (listing_independent_of_traversal_order
           (fun _ => ["b.ipynb"; "a/c.ipynb"; "a.ipynb"])
           (fun _ => ["a.ipynb"; "b.ipynb"; "a/c.ipynb"])).
  intros _.
  apply (Permutation_cons_app ["a.ipynb"] ["a/c.ipynb"] "b.ipynb").
  apply perm_swap.
Defined.




(* ================================================================== *)
(** * Links that are not valid, and directories without an index *)

Lemma links_found_return {F : Type} `{Format F} (catalog : list Algorithm)
    (file_fmt : F) :
  Forall complete catalog -> snd (links_found catalog file_fmt) = Ok tt.
Proof.
  intros Hc. unfold links_found. rewrite chain_all_return; [reflexivity |].
  constructor; [| constructor; [| constructor]].
  - apply find_links_normalized. constructor.
    apply Forall_map, Forall_map, Forall_forall. intros c _.
    constructor. apply column_linkable.
  - rewrite find_links_list, chain_all_return; [reflexivity |].
    rewrite map_map. apply Forall_map.
    eapply Forall_impl; [| exact Hc]. intros a Ha. cbv beta.
    now rewrite find_links_complete.
Qed.

(** X17.  A link of the headings or of the records whose target is missing for
    the first file: [tables] reports the invalid links with the hint to edit
    the script, and exits with status 1.  It does so whatever the action:
    not even an overwrite writes a file, and the second file is not looked
    at. *)
Theorem tables_stops_at_invalid_link (__file__ : string)
    (exists_ : string -> bool) (catalog : list Algorithm) (action : string)
    (w : world) (written_rendered : option string * option string) :
  Forall complete catalog ->
  In written_rendered (fst (links_found catalog FILES_rst)) ->
  link_is_valid_relative exists_ (snd written_rendered) "docs/demos" = false ->
  exits_with
    (InvalidLinksReport __file__ "docs/demos"
       (filter (fun written_rendered =>
                  negb (link_is_valid_relative exists_ (snd written_rendered)
                          "docs/demos"))
          (fst (links_found catalog FILES_rst))))
    true w (tables_of __file__ exists_ catalog action w).
Proof.
  intros Hc Hin Hinvalid. unfold exits_with, tables_of, tables_file.
  unfold script_bind at 1. unfold script_bind at 1.
  destruct (Rst_render_returns FILES_rst COLUMNS catalog Hc) as (table & ->).
  cbn [lift]. unfold script_bind at 1.
  fold (links_found catalog FILES_rst).
  rewrite (links_found_return catalog FILES_rst Hc). cbn [lift].
  change (dirname (file_name FILES_rst)) with "docs/demos".
  unfold script_bind at 1.
  match goal with
  | |- context [filter ?f ?l] =>
      assert (Hne : Nat.eqb (List.length (filter f l)) 0 = false)
  end.
  { apply Nat.eqb_neq. intros Hlen. apply length_zero_iff_nil in Hlen.
    assert (Hfound : In written_rendered
              (filter (fun written_rendered =>
                  negb (link_is_valid_relative exists_ (snd written_rendered)
                          "docs/demos"))
                 (fst (links_found catalog FILES_rst)))).
    { apply filter_In. split; [exact Hin | now rewrite Hinvalid]. }
    rewrite Hlen in Hfound. destruct Hfound. }
  rewrite Hne. reflexivity.
Qed.

Lemma tables_stops_at_invalid_link_witness :
  exists catalog invalid_links,
    ALGORITHMS = Ok catalog
    /\ List.length invalid_links = 40
    /\ exits_with
         (InvalidLinksReport "scripts/demo_indexing.py" "docs/demos"
            invalid_links)
         true a_checkout
         (tables_of "scripts/demo_indexing.py" (fun _ => false) catalog
            "overwrite" a_checkout).
Proof.
  pose (catalog := match ALGORITHMS with Ok c => c | Raise _ => [] end).
  exists catalog. eexists.
  split; [vm_compute; reflexivity |].
  split;
    [| apply (tables_stops_at_invalid_link "scripts/demo_indexing.py"
                (fun _ => false) catalog "overwrite" a_checkout
                (Some "node-classification",
                 Some "node-classification/index.rst"))].
  - vm_compute. reflexivity.
  - destruct ALGORITHMS_complete as (c & Hc & _ & Hall).
    unfold catalog. rewrite Hc. exact Hall.
  - vm_compute. tauto.
  - reflexivity.
Defined.

Lemma script_for_app {X : Type} (xs ys : list X) (body : X -> script unit)
    (w : world) :
  script_for (xs ++ ys) body w
  = script_bind (script_for xs body) (fun _ => script_for ys body) w.
Proof.
  revert w. induction xs as [|x xs IH]; intros w; cbn [script_for app].
  - reflexivity.
  - unfold script_bind. destruct (body x w) as [w' [[]|r]]; [| reflexivity].
    rewrite IH. reflexivity.
Qed.

(** X18.  A directory whose README has no "index.txt" in the documentation ends
    the run: the README and the index are reported, without the hint to edit
    the script, and the script exits with status 1, leaving the files as the
    directories before it left them; the directories after it are not
    visited. *)
Theorem demo_indexing_stops_at_missing_index (__file__ : string)
    (exists_ : string -> bool) (notebooks_under : string -> list string)
    (nbformat_read : string -> string -> list string)
    (before after : list string) (directory action : string) (w w1 : world) :
  demo_indexing __file__ exists_ notebooks_under nbformat_read before action w
  = (w1, Returned tt) ->
  exists_ (path_join directory "README.md") = true ->
  exists_ (path_join (path_join "docs" directory) "index.txt") = false ->
  exits_with
    (MissingIndexReport (path_join directory "README.md")
       (path_join (path_join "docs" directory) "index.txt"))
    false w1
    (demo_indexing __file__ exists_ notebooks_under nbformat_read
       (before ++ directory :: after) action w).
Proof.
  intros Hbefore Hreadme Hindex. unfold exits_with, demo_indexing in *.
  rewrite script_for_app. unfold script_bind at 1. rewrite Hbefore.
  cbn [script_for]. unfold script_bind at 1.
  unfold demo_indexing_directory. cbv zeta. rewrite Hreadme. cbn [negb].
  unfold script_bind at 1. now rewrite Hindex.
Qed.

Lemma demo_indexing_stops_at_missing_index_witness :
  exits_with
    (MissingIndexReport "demos/basics/README.md" "docs/demos/basics/index.txt")
    false a_checkout
    (demo_indexing "scripts/demo_indexing.py"
       (fun path => path =? "demos/basics/README.md") (fun _ => [])
       (fun _ _ => []) ["demos/community/"; "demos/basics/"; "demos/"]
       "overwrite" a_checkout).
Proof.
  apply (demo_indexing_stops_at_missing_index "scripts/demo_indexing.py"
           (fun path => path =? "demos/basics/README.md") (fun _ => [])
           (fun _ _ => []) ["demos/community/"] ["demos/"] "demos/basics/"
           "overwrite" a_checkout a_checkout);
    reflexivity.
Defined.

Lemma demo_indexing_directory_without_readme (__file__ : string)
    (exists_ : string -> bool) (notebooks_under : string -> list string)
    (nbformat_read : string -> string -> list string)
    (action directory : string) :
  exists_ (path_join directory "README.md") = false ->
  demo_indexing_directory __file__ exists_ notebooks_under nbformat_read
    action directory
  = script_return tt.
Proof.
  intros Hr. unfold demo_indexing_directory. cbv zeta. now rewrite Hr.
Qed.

(** X19.  The directories without a README are skipped: the run is the run over
    the directories that have one. *)
Theorem demo_indexing_skips_without_readme (__file__ : string)
    (exists_ : string -> bool) (notebooks_under : string -> list string)
    (nbformat_read : string -> string -> list string)
    (demo_directories : list string) (action : string) (w : world) :
  demo_indexing __file__ exists_ notebooks_under nbformat_read
    demo_directories action w
  = demo_indexing __file__ exists_ notebooks_under nbformat_read
      (filter (fun directory => exists_ (path_join directory "README.md"))
         demo_directories)
      action w.
Proof.
  unfold demo_indexing. revert w.
  induction demo_directories as [|directory l IH]; intros w;
    [reflexivity |].
  cbn [script_for filter].
  destruct (exists_ (path_join directory "README.md")) eqn:Hr.
  - cbn [script_for]. unfold script_bind.
    destruct (demo_indexing_directory __file__ exists_ notebooks_under
                nbformat_read action directory w) as [w' [[]|r]];
      [apply IH | reflexivity].
  - rewrite (demo_indexing_directory_without_readme _ _ _ _ _ _ Hr).
    unfold script_bind, script_return. apply IH.
Qed.

(* ================================================================== *)
(** * A row of the listing *)

(** What follows a string cannot complete a prefix that does not hold its
    first character. *)
Lemma prefix_not_completed (c : ascii) (p s t : string) :
  mentions c p = false -> prefix p s = false ->
  prefix p (s ++ String c t) = false.
Proof.
  revert s. induction p as [|a p IH]; intros s Hm Hp.
  - now rewrite prefix_empty in Hp.
  - cbn [mentions] in Hm. apply orb_false_elim in Hm as [Ha Hm].
    destruct s as [|b s].
    + cbn [append]. rewrite prefix_cons.
      rewrite Ascii.eqb_sym in Ha. now rewrite Ha.
    + change (String b s ++ String c t) with (String b (s ++ String c t)).
      rewrite prefix_cons in Hp |- *.
      destruct (Ascii.eqb a b); [| reflexivity].
      cbn [andb] in *. now apply IH.
Qed.

Lemma contains_cons (sub : string) (c : ascii) (s : string) :
  contains (String c s) sub = false ->
  prefix sub (String c s) = false /\ contains s sub = false.
Proof.
  unfold contains. destruct (prefix sub (String c s)) eqn:Hp.
  - now rewrite (partition_here _ _ Hp).
  - rewrite (partition_later _ _ _ Hp).
    now destruct (partition sub s) as [[b a]|].
Qed.

(** The extension after a name that does not hold it is its leftmost
    occurrence. *)
Lemma partition_extension (stem : string) :
  contains stem ".ipynb" = false ->
  partition ".ipynb" (stem ++ ".ipynb") = Some (stem, "").
Proof.
  induction stem as [|c stem IH]; intros Hc; [reflexivity |].
  apply contains_cons in Hc as [Hp Hc].
  change (String c stem ++ ".ipynb") with (String c (stem ++ ".ipynb")).
  rewrite partition_later, (IH Hc); [reflexivity |].
  rewrite prefix_cons in Hp |- *.
  destruct (Ascii.eqb "." c); [| reflexivity]. cbn [andb] in *.
  now apply (prefix_not_completed "." "ipynb" stem "ipynb").
Qed.

Lemma replace_extension (stem : string) :
  contains stem ".ipynb" = false ->
  replace (stem ++ ".ipynb") ".ipynb" ".html" = stem ++ ".html".
Proof.
  intros Hc. unfold replace.
  rewrite split_parts_unfold by (easy || lia).
  rewrite (partition_extension _ Hc). cbn [String.length split_parts].
  assert (Hp : partition ".ipynb" "" = None) by reflexivity.
  rewrite Hp. unfold join. cbn [String.concat].
  now rewrite append_empty_r.
Qed.

Lemma first_line_title (title rest : string) :
  contains title LF = false ->
  rest = "" \/ startswith rest LF = true ->
  first_line (title ++ rest) = title.
Proof.
  intros Ht [->|Hr].
  - rewrite append_empty_r. unfold first_line. unfold contains in Ht.
    now destruct (partition LF title) as [[b a]|].
  - apply prefix_inv in Hr. rewrite Hr. now apply first_line_append.
Qed.

Lemma endswith_slash_append (a b : string) :
  endswith_slash b = true -> endswith_slash (a ++ b) = true.
Proof.
  intros Hb. induction a as [|c a IH]; [exact Hb |].
  change (String c a ++ b) with (String c (a ++ b)).
  cbn [endswith_slash]. destruct (a ++ b) eqn:Hab; [| exact IH].
  apply append_eq_empty in Hab. subst b. discriminate Hb.
Qed.

Lemma isabs_append (stem suffix : string) :
  isabs stem = false -> isabs suffix = false -> isabs (stem ++ suffix) = false.
Proof.
  destruct stem as [|c stem]; [easy |]. intros Hs _.
  unfold isabs, startswith in *.
  change (String c stem ++ suffix) with (String c (stem ++ suffix)).
  rewrite prefix_cons, prefix_empty in *. exact Hs.
Qed.

(** X20.  The row of a notebook: the title of its first cell, up to the end of
    its line, linked to the page of the notebook in the documentation (the
    name with its extension replaced, under the directory), and the link to
    the notebook itself. *)
Theorem demo_row_form (nbformat_read : string -> string -> list string)
    (root inside stem title rest : string) (cells : list string) :
  nbformat_read inside (stem ++ ".ipynb") = ("# " ++ title ++ rest) :: cells ->
  contains title LF = false ->
  rest = "" \/ startswith rest LF = true ->
  contains stem ".ipynb" = false ->
  isabs stem = false ->
  isabs root = false ->
  endswith_slash root = true ->
  demo_row nbformat_read root inside (stem ++ ".ipynb")
  = Returned ("| [" ++ title ++ "](" ++ DOC_URL_BASE ++ "/" ++ root ++ stem
              ++ ".html" ++ ") | [source](" ++ stem ++ ".ipynb" ++ ") |").
Proof.
  intros Hread Htitle Hrest Hstem Hrel Hroot Hslash.
  unfold demo_row. rewrite Hread. unfold TITLE_RE_match, startswith.
  rewrite prefix_append.
  change (drop 2 ("# " ++ title ++ rest)) with (title ++ rest).
  rewrite (first_line_title _ _ Htitle Hrest).
  rewrite (replace_extension _ Hstem).
  rewrite (path_join_relative DOC_URL_BASE root Hroot).
  change ((DOC_URL_BASE =? "") || endswith_slash DOC_URL_BASE) with false.
  cbv iota.
  rewrite path_join_relative by now apply isabs_append.
  rewrite (endswith_slash_append DOC_URL_BASE ("/" ++ root))
    by now apply (endswith_slash_append "/").
  rewrite orb_true_r. now rewrite !append_assoc.
Qed.

Lemma demo_row_form_witness :
  demo_row
    (fun _ _ => ["# Loading data into StellarGraph from Pandas"
                 ++ LF ++ LF ++ "> This demo explains how to load data."])
    "demos/basics/" "/repo/demos/basics/" "loading-pandas.ipynb"
  = Returned
      "| [Loading data into StellarGraph from Pandas](https://stellargraph.readthedocs.io/en/stable/demos/basics/loading-pandas.html) | [source](loading-pandas.ipynb) |".
Proof.
  apply (demo_row_form
           (fun _ _ => ["# Loading data into StellarGraph from Pandas"
                        ++ LF ++ LF ++ "> This demo explains how to load data."])
           "demos/basics/" "/repo/demos/basics/" "loading-pandas"
           "Loading data into StellarGraph from Pandas"
           (LF ++ LF ++ "> This demo explains how to load data.") []);
    try reflexivity.
  now right.
Defined.

(* ================================================================== *)
(** * The files a run writes *)

Lemma within_refl (targets : string -> Prop) (w : world) : within targets w w.
Proof. intros path. now split. Qed.

Lemma within_trans (targets : string -> Prop) (w1 w2 w3 : world) :
  within targets w1 w2 -> within targets w2 w3 -> within targets w1 w3.
Proof.
  intros H12 H23 path. destruct (H12 path) as [Hn Hk].
  destruct (H23 path) as [Hn' Hk']. split.
  - now rewrite Hn', Hn.
  - intros Ht. now rewrite Hk', Hk.
Qed.

Lemma touches_only_weaken {A : Type} (targets targets' : string -> Prop)
    (m : script A) :
  (forall path, targets path -> targets' path) ->
  touches_only targets m -> touches_only targets' m.
Proof.
  intros Hsub Hm w path. destruct (Hm w path) as [Hn Hk].
  split; [exact Hn |]. intros Ht. apply Hk. intros Hp. now apply Ht, Hsub.
Qed.

Lemma touches_only_bind {A B : Type} (targets : string -> Prop)
    (m : script A) (k : A -> script B) :
  touches_only targets m -> (forall a, touches_only targets (k a)) ->
  touches_only targets (script_bind m k).
Proof.
  intros Hm Hk w. unfold script_bind. specialize (Hm w).
  destruct (m w) as [w' [a|r]]; cbn [fst] in *; [| exact Hm].
  exact (within_trans _ _ _ _ Hm (Hk a w')).
Qed.

Lemma touches_only_same {A : Type} (targets : string -> Prop) (m : script A) :
  (forall w path, w_files (fst (m w)) path = w_files w path) ->
  touches_only targets m.
Proof. intros Hm w path. now rewrite Hm. Qed.

Lemma touches_only_for {X : Type} (targets : string -> Prop) (xs : list X)
    (body : X -> script unit) :
  (forall x, In x xs -> touches_only targets (body x)) ->
  touches_only targets (script_for xs body).
Proof.
  induction xs as [|x xs IH]; intros Hbody; cbn [script_for].
  - now apply touches_only_same.
  - apply touches_only_bind; [apply Hbody; now left |].
    intros _. apply IH. intros y Hy. apply Hbody. now right.
Qed.

Lemma touches_only_patch (file_name separator action new_middle label : string) :
  touches_only (fun path => path = file_name)
    (patch file_name separator action new_middle label).
Proof.
  intros w path. unfold patch.
  destruct (w_files w file_name) as [disk|] eqn:Hdisk; [| now split].
  cbv zeta. cbn [fst w_files]. unfold write_file.
  destruct (path =? file_name) eqn:Hp.
  - apply String.eqb_eq in Hp. subst path. rewrite Hdisk.
    split; [now split | now intros Hne; elim Hne].
  - now split.
Qed.

Lemma touches_only_tables_of (__file__ : string) (exists_ : string -> bool)
    (catalog : list Algorithm) (action : string) :
  touches_only
    (fun path => path = file_name FILES_rst \/ path = file_name FILES_html)
    (tables_of __file__ exists_ catalog action).
Proof.
  unfold tables_of, tables_file.
  repeat first
    [ apply touches_only_bind; [| intros ?]
    | apply touches_only_same; reflexivity
    | match goal with
      | |- touches_only _ (if ?c then _ else _) => destruct c
      | |- touches_only _ (patch (file_name FILES_rst) _ _ _ _) =>
          apply (touches_only_weaken (fun path => path = file_name FILES_rst));
          [intros path Hp; now left | apply touches_only_patch]
      | |- touches_only _ (patch (file_name FILES_html) _ _ _ _) =>
          apply (touches_only_weaken (fun path => path = file_name FILES_html));
          [intros path Hp; now right | apply touches_only_patch]
      end ].
Qed.

Lemma touches_only_demo_indexing_directory (__file__ : string)
    (exists_ : string -> bool) (notebooks_under : string -> list string)
    (nbformat_read : string -> string -> list string)
    (action directory : string) :
  touches_only (fun path => path = path_join directory "README.md")
    (demo_indexing_directory __file__ exists_ notebooks_under nbformat_read
       action directory).
Proof.
  unfold demo_indexing_directory. cbv zeta.
  repeat first
    [ apply touches_only_patch
    | apply touches_only_bind; [| intros ?]
    | apply touches_only_same; reflexivity
    | match goal with
      | |- touches_only _ (if ?c then _ else _) => destruct c
      | |- touches_only _ (demo_listing_table _ _ _) =>
          apply touches_only_same; intros w path;
          unfold demo_listing_table; cbv zeta;
          match goal with
          | |- context [demo_rows ?r ?root ?inside ?demos] =>
              now destruct (demo_rows r root inside demos)
          end
      end ].
Qed.

(** X21.  Whatever the action and however the run ends, it creates no file and
    deletes none, and every file other than the two files of the tables and
    the README of a directory of demos holds what it held. *)
Theorem run_writes_only_its_files (__file__ : string)
    (exists_ : string -> bool) (notebooks_under : string -> list string)
    (nbformat_read : string -> string -> list string)
    (demo_directories : list string) (action : string) (w : world) :
  within (written_by_run demo_directories) w
    (fst (main __file__ exists_ notebooks_under nbformat_read
            demo_directories action w)).
Proof.
  revert w. change (touches_only (written_by_run demo_directories)
    (main __file__ exists_ notebooks_under nbformat_read demo_directories
       action)).
  unfold main, tables. apply touches_only_bind.
  - apply touches_only_bind; [now apply touches_only_same |].
    intros catalog.
    eapply touches_only_weaken; [| apply touches_only_tables_of].
    intros path [Hp|Hp]; [now left | right; now left].
  - intros _. unfold demo_indexing. apply touches_only_for.
    intros directory Hin.
    eapply touches_only_weaken;
      [| apply touches_only_demo_indexing_directory].
    intros path Hp. right. right. now exists directory.
Qed.
